(** * UFO: app-agent states and the step-processing pipeline

    A shallow embedding of
      - [ufo/agents/states/app_agent_state.py]: the state classes of the app
        agent, with their inheritance and method overriding, and
      - [ufo/module/processors/basic.py]: [BaseProcessor], the template
        method [process] and its bookkeeping,
    and the properties of both that the specification states. *)

From stdpp Require Import base tactics option list gmap strings pretty.
From Stdlib Require Import ZArith Lia Ascii String.

Local Open Scope string_scope.
Local Open Scope list_scope.
Local Open Scope Z_scope.

(** * The app-agent state classes *)
Module AppAgentStates.

(** [class AppAgentStatus(Enum)] and the [.value] of each member. *)
Inductive AppAgentStatus : Set :=
  | ERROR | FINISH | SWITCH | CONTINUE | FAIL | PENDING | CONFIRM | SCREENSHOT.

Definition value (s : AppAgentStatus) : string :=
  match s with
  | ERROR => "ERROR"
  | FINISH => "FINISH"
  | SWITCH => "SWITCH"
  | CONTINUE => "CONTINUE"
  | FAIL => "FAIL"
  | PENDING => "PENDING"
  | CONFIRM => "CONFIRM"
  | SCREENSHOT => "SCREENSHOT"
  end.

(** The three host state classes the module imports from
    [ufo.agents.states.host_agent_state].  The app states return these class
    objects themselves, so only their identity matters here. *)
Inductive HostAgentStateClass : Set :=
  | ContinueHostAgentState | FinishHostAgentState | NoneHostAgentState.

(** The classes the module defines: the abstract [AppAgentState] and the nine
    states decorated with [@AppAgentStateManager.register]. *)
Inductive AppAgentStateClass : Set :=
  | AppAgentState
  | FinishAppAgentState
  | ContinueAppAgentState
  | ScreenshotAppAgentState
  | SwitchAppAgentState
  | PendingAppAgentState
  | ConfirmAppAgentState
  | ErrorAppAgentState
  | FailAppAgentState
  | NoneAppAgentState.

#[global] Instance AppAgentStateClass_eq_dec : EqDecision AppAgentStateClass.
Proof. solve_decision. Defined.

#[global] Instance HostAgentStateClass_eq_dec : EqDecision HostAgentStateClass.
Proof. solve_decision. Defined.

(** The base class in each [class C(B)] header.  [AppAgentState] derives from
    [AgentState], which declares the interface and implements none of it. *)
Definition base (c : AppAgentStateClass) : option AppAgentStateClass :=
  match c with
  | AppAgentState => None
  | ScreenshotAppAgentState => Some ContinueAppAgentState
  | FinishAppAgentState | ContinueAppAgentState | SwitchAppAgentState
  | PendingAppAgentState | ConfirmAppAgentState | ErrorAppAgentState
  | FailAppAgentState | NoneAppAgentState => Some AppAgentState
  end.

(** Method resolution order: the class, then its chain of bases. *)
Fixpoint mro_from (fuel : nat) (c : AppAgentStateClass) : list AppAgentStateClass :=
  match fuel with
  | O => []
  | S fuel' =>
      c :: match base c with
           | Some b => mro_from fuel' b
           | None => []
           end
  end.

Definition mro (c : AppAgentStateClass) : list AppAgentStateClass := mro_from 3 c.

(** Attribute lookup on a class: the first class of the MRO whose body
    defines the method; [None] when no class of the chain does (the method is
    still abstract). *)
Definition lookup_method {A : Type}
    (defines : AppAgentStateClass -> option A) (c : AppAgentStateClass) : option A :=
  head (omap defines (mro c)).

(** The states in the order their [register] decorators run at import. *)
Definition registered_states : list AppAgentStateClass :=
  [ FinishAppAgentState; ContinueAppAgentState; ScreenshotAppAgentState;
    SwitchAppAgentState; PendingAppAgentState; ConfirmAppAgentState;
    ErrorAppAgentState; FailAppAgentState; NoneAppAgentState ].

(** [name], a classmethod: the bodies each class gives it. *)
Definition defines_name (c : AppAgentStateClass) : option string :=
  match c with
  | AppAgentState => None
  | FinishAppAgentState => Some (value FINISH)
  | ContinueAppAgentState => Some (value CONTINUE)
  | ScreenshotAppAgentState => Some (value SCREENSHOT)
  | SwitchAppAgentState => Some (value SWITCH)
  | PendingAppAgentState => Some (value PENDING)
  | ConfirmAppAgentState => Some (value CONFIRM)
  | ErrorAppAgentState => Some (value ERROR)
  | FailAppAgentState => Some (value FAIL)
  | NoneAppAgentState => Some ""
  end.

Definition name (c : AppAgentStateClass) : option string :=
  lookup_method defines_name c.

(** [is_round_end]: the bodies each class gives it.  [AppAgentState] leaves it
    abstract and [ScreenshotAppAgentState] does not override it. *)
Definition defines_is_round_end (c : AppAgentStateClass) : option bool :=
  match c with
  | AppAgentState => None
  | FinishAppAgentState => Some false
  | ContinueAppAgentState => Some false
  | ScreenshotAppAgentState => None
  | SwitchAppAgentState => Some false
  | PendingAppAgentState => Some false
  | ConfirmAppAgentState => Some false
  | ErrorAppAgentState => Some true
  | FailAppAgentState => Some false
  | NoneAppAgentState => Some true
  end.

Definition is_round_end (c : AppAgentStateClass) : option bool :=
  lookup_method defines_is_round_end c.

(** ** The state manager

    Modelled from the spec: [AgentStateManager] ([register], [get_state]) is
    defined in [ufo/agents/states/basic.py], which is not among the sources.
    The specification (4.1) gives its contract: [register] associates the
    state's [name()] with the class and fails when the name is already taken;
    the lookup returns the class registered under exactly that status string
    and the role's None state when there is none. *)
Definition register (c : AppAgentStateClass) (m : gmap string AppAgentStateClass)
    : option (gmap string AppAgentStateClass) :=
  n ← name c;
  match m !! n with
  | Some _ => None
  | None => Some (<[n := c]> m)
  end.

Definition load_states (cs : list AppAgentStateClass)
    : option (gmap string AppAgentStateClass) :=
  foldl (fun acc c => acc ≫= register c) (Some ∅) cs.

(** The mapping once the module is imported: every decorator has run. *)
Definition state_mapping : gmap string AppAgentStateClass :=
  default ∅ (load_states registered_states).

(** [AppAgentStateManager.none_state] is [NoneAppAgentState]. *)
Definition none_state : AppAgentStateClass := NoneAppAgentState.

Definition get_state (status : string) : AppAgentStateClass :=
  default none_state (state_mapping !! status).

(** ** Agents, state objects and the methods of the states *)
Section Agents.

(** [HostAgent], [Context]: classes of other modules, opaque here.
    [AgentRef]: a reference to an agent object, as a state object holds one in
    [self.agent].  [Internals]: whatever else an app agent carries. *)
Variables (HostAgent AgentRef Context Internals : Type).

(** [AppAgent] is defined outside the sources; the states read [agent.status]
    and [agent.host] and call [agent.process(context)] and
    [agent.process_resume()]. *)
Record AppAgent : Type := mkAppAgent {
  status : string;
  host : HostAgent;
  internals : Internals
}.

(** The two agent methods the states call, as the update they make to the
    agent object. *)
Variable process : option Context -> AppAgent -> AppAgent.
Variable process_resume : AppAgent -> AppAgent.

(** The calls a state makes on its agent, in order. *)
Inductive AgentCall : Type :=
  | call_process (context : option Context)
  | call_process_resume.

(** A state object: its class, the agent it was constructed for
    ([self.agent]) and the [_confirm] attribute that
    [ConfirmAppAgentState.__init__] sets to [None] (absent, hence [None], in
    the other classes). *)
Record StateObject : Type := mkState {
  cls : AppAgentStateClass;
  agent : AgentRef;
  _confirm : option bool
}.

(** [ConfirmAppAgentState.user_confirm], reached through [self]: the source's
    body is a stub (see [user_confirm_stub]); a subclass supplies the
    confirmation source.  Its result is a Python [bool] or [None]. *)
Variable user_confirm : StateObject -> option bool.

(** What [next_agent] returns: typed [BasicAgent], it is either the host
    agent or the app agent. *)
Inductive BasicAgent : Type :=
  | TheHost (h : HostAgent)
  | TheApp (a : AppAgent).

(** What [next_state] returns: a host state class (the class object, not an
    instance), a freshly constructed app state, or the [TypeError] of a
    constructor called with an argument it does not take. *)
Inductive NextState : Type :=
  | HostStateClass (h : HostAgentStateClass)
  | AppStateObject (s : StateObject)
  | RaisesTypeError.

(** [state(self.agent)]: calling the class with the agent.
    [ConfirmAppAgentState] defines [__init__(self)], which accepts no agent;
    every other class inherits the constructor of [AgentState].
    Modelled from the spec: that constructor is in
    [ufo/agents/states/basic.py]; by the specification (4.1, [construct]) it
    gives an instance bound to the owner agent. *)
Definition construct (c : AppAgentStateClass) (owner : AgentRef) : NextState :=
  match c with
  | ConfirmAppAgentState => RaisesTypeError
  | _ => AppStateObject {| cls := c; agent := owner; _confirm := None |}
  end.

(** Python truth value of a [bool]-or-[None]. *)
Definition truthy (v : option bool) : bool :=
  match v with
  | Some b => b
  | None => false
  end.

(** The stub in the source: [def user_confirm(self) -> bool: pass]. *)
Definition user_confirm_stub (self : StateObject) : option bool := None.

(** A [handle] body: from the state object, the agent and the context to the
    state object and the agent afterwards, and the calls made on the agent. *)
Definition handle_body : Type :=
  StateObject -> AppAgent -> option Context -> StateObject * AppAgent * list AgentCall.

Definition defines_handle (c : AppAgentStateClass) : option handle_body :=
  match c with
  | AppAgentState =>
      Some (fun self a context => (self, a, []))
  | ContinueAppAgentState =>
      Some (fun self a context => (self, process context a, [call_process context]))
  | PendingAppAgentState =>
      Some (fun self a context => (self, a, []))
  | ConfirmAppAgentState =>
      Some (fun self a context =>
              let answer := user_confirm self in
              let self' := {| cls := cls self; agent := agent self; _confirm := answer |} in
              if truthy answer
              then (self', process_resume a, [call_process_resume])
              else (self', a, []))
  | FinishAppAgentState | ScreenshotAppAgentState | SwitchAppAgentState
  | ErrorAppAgentState | FailAppAgentState | NoneAppAgentState => None
  end.

Definition handle (self : StateObject) (a : AppAgent) (context : option Context)
    : option (StateObject * AppAgent * list AgentCall) :=
  body ← lookup_method defines_handle (cls self);
  Some (body self a context).

Definition defines_next_agent (c : AppAgentStateClass)
    : option (StateObject -> AppAgent -> BasicAgent) :=
  match c with
  | AppAgentState => Some (fun self a => TheApp a)
  | FinishAppAgentState => Some (fun self a => TheHost (host a))
  | SwitchAppAgentState => Some (fun self a => TheHost (host a))
  | ErrorAppAgentState => Some (fun self a => TheHost (host a))
  | FailAppAgentState => Some (fun self a => TheHost (host a))
  | NoneAppAgentState => Some (fun self a => TheHost (host a))
  | ContinueAppAgentState | ScreenshotAppAgentState | PendingAppAgentState
  | ConfirmAppAgentState => None
  end.

Definition next_agent (self : StateObject) (a : AppAgent) : option BasicAgent :=
  body ← lookup_method defines_next_agent (cls self);
  Some (body self a).

Definition defines_next_state (c : AppAgentStateClass)
    : option (StateObject -> AppAgent -> NextState) :=
  match c with
  | AppAgentState =>
      Some (fun self a =>
              let status := status a in
              let state := get_state status in
              construct state (agent self))
  | FinishAppAgentState => Some (fun self a => HostStateClass FinishHostAgentState)
  | SwitchAppAgentState => Some (fun self a => HostStateClass ContinueHostAgentState)
  | ErrorAppAgentState => Some (fun self a => HostStateClass FinishHostAgentState)
  | FailAppAgentState => Some (fun self a => HostStateClass FinishHostAgentState)
  | NoneAppAgentState => Some (fun self a => HostStateClass NoneHostAgentState)
  | ContinueAppAgentState | ScreenshotAppAgentState | PendingAppAgentState
  | ConfirmAppAgentState => None
  end.

Definition next_state (self : StateObject) (a : AppAgent) : option NextState :=
  body ← lookup_method defines_next_state (cls self);
  Some (body self a).

(** ** The state table of the specification

    The table of section 4.2, row by row: what [handle] does, who the next
    agent is, what the next state is and whether the round ends.  [row_holds]
    says what a row promises of a state class of the code. *)
Inductive HandleEffect : Set :=
  | run_pipeline
  | no_effect
  | ask_confirmation.

Inductive NextAgentEntry : Set := to_self | to_host.

Inductive NextStateEntry : Set :=
  | derived
  | host_state (h : HostAgentStateClass).

Record TableRow : Set := mkRow {
  handle_effect : HandleEffect;
  next_agent_entry : NextAgentEntry;
  next_state_entry : NextStateEntry;
  round_end : bool
}.

Definition state_table (c : AppAgentStateClass) : option TableRow :=
  match c with
  | AppAgentState => None
  | ContinueAppAgentState => Some (mkRow run_pipeline to_self derived false)
  | ScreenshotAppAgentState => Some (mkRow run_pipeline to_self derived false)
  | SwitchAppAgentState =>
      Some (mkRow no_effect to_host (host_state ContinueHostAgentState) false)
  | PendingAppAgentState => Some (mkRow no_effect to_self derived false)
  | ConfirmAppAgentState => Some (mkRow ask_confirmation to_self derived false)
  | FinishAppAgentState =>
      Some (mkRow no_effect to_host (host_state FinishHostAgentState) false)
  | ErrorAppAgentState =>
      Some (mkRow no_effect to_host (host_state FinishHostAgentState) true)
  | FailAppAgentState =>
      Some (mkRow no_effect to_host (host_state FinishHostAgentState) false)
  | NoneAppAgentState =>
      Some (mkRow no_effect to_host (host_state NoneHostAgentState) true)
  end.

Definition row_holds (c : AppAgentStateClass) (row : TableRow) : Prop :=
  forall (r : AgentRef) (cf : option bool) (a : AppAgent) (context : option Context),
    let self := {| cls := c; agent := r; _confirm := cf |} in
    handle self a context
      = Some (match handle_effect row with
              | run_pipeline => (self, process context a, [call_process context])
              | no_effect => (self, a, [])
              | ask_confirmation =>
                  ({| cls := c; agent := r; _confirm := user_confirm self |},
                   if truthy (user_confirm self) then process_resume a else a,
                   if truthy (user_confirm self) then [call_process_resume] else [])
              end)
    /\ next_agent self a
       = Some (match next_agent_entry row with
               | to_self => TheApp a
               | to_host => TheHost (host a)
               end)
    /\ next_state self a
       = Some (match next_state_entry row with
               | derived => construct (get_state (status a)) r
               | host_state h => HostStateClass h
               end)
    /\ is_round_end c = Some (round_end row).

End Agents.

Arguments mkAppAgent {HostAgent Internals} status host internals.
Arguments status {HostAgent Internals} a.
Arguments host {HostAgent Internals} a.
Arguments internals {HostAgent Internals} a.
Arguments mkState {AgentRef} cls agent _confirm.
Arguments cls {AgentRef} s.
Arguments agent {AgentRef} s.
Arguments _confirm {AgentRef} s.
Arguments call_process {Context} context.
Arguments call_process_resume {Context}.
Arguments TheHost {HostAgent Internals} h.
Arguments TheApp {HostAgent Internals} a.
Arguments HostStateClass {AgentRef} h.
Arguments AppStateObject {AgentRef} s.
Arguments RaisesTypeError {AgentRef}.
Arguments construct {AgentRef} c owner.
Arguments user_confirm_stub {AgentRef} self.
Arguments defines_handle {HostAgent AgentRef Context Internals} process process_resume user_confirm c.
Arguments handle {HostAgent AgentRef Context Internals} process process_resume user_confirm self a context.
Arguments defines_next_agent {HostAgent AgentRef Internals} c.
Arguments next_agent {HostAgent AgentRef Internals} self a.
Arguments defines_next_state {HostAgent AgentRef Internals} c.
Arguments next_state {HostAgent AgentRef Internals} self a.
Arguments row_holds {HostAgent AgentRef Context Internals} process process_resume user_confirm c row.

End AppAgentStates.

(** * The step processor *)
Module Processor.

(** ** [json.dumps] on the values the processor logs

    The arguments are the defaults: [ensure_ascii=True], [allow_nan=True],
    separators [", "] and [": "], keys in insertion order. *)

(** A Python [str]: its code points, in order.  A code point is below
    0x110000; the surrogates 0xd800 to 0xdfff may stand alone in a [str]. *)
Definition pystr : Set := list N.

(** The [str] of a literal of the source. *)
Definition str_of (s : string) : pystr := List.map N_of_ascii (list_ascii_of_string s).

Definition valid_str (s : pystr) : Prop := Forall (fun n => (n < 0x110000)%N) s.

Definition quotation_mark : ascii := "034"%char.
Definition reverse_solidus : ascii := "092"%char.

Definition hex_digit (n : N) : ascii :=
  match n with
  | 0 => "0" | 1 => "1" | 2 => "2" | 3 => "3" | 4 => "4" | 5 => "5" | 6 => "6"
  | 7 => "7" | 8 => "8" | 9 => "9" | 10 => "a" | 11 => "b" | 12 => "c"
  | 13 => "d" | 14 => "e" | _ => "f"
  end%N%char.

(** Four hexadecimal digits, as the format [{0:04x}] writes a number below
    0x10000. *)
Definition hex4 (n : N) : string :=
  String (hex_digit (n / 4096 mod 16))
    (String (hex_digit (n / 256 mod 16))
       (String (hex_digit (n / 16 mod 16))
          (String (hex_digit (n mod 16)) EmptyString))).

Definition u_escape (n : N) : string :=
  String reverse_solidus (String "u" (hex4 n)).

(** The surrogate pair of a code point beyond 0xffff:
    [0xd800 | ((n >> 10) & 0x3ff)] and [0xdc00 | (n & 0x3ff)] for [n] the
    code point less 0x10000. *)
Definition high_half (n : N) : N :=
  N.lor 0xd800 (N.land (N.shiftr (n - 0x10000) 10) 0x3ff).
Definition low_half (n : N) : N :=
  N.lor 0xdc00 (N.land (n - 0x10000) 0x3ff).

(** One code point of a string, as [py_encode_basestring_ascii] writes it:
    the quotation mark and the backslash behind a backslash, the five short
    escapes, printable ASCII as it is, any other code point below 0x10000 as
    [\uxxxx], and a code point beyond as the two [\uxxxx] of its surrogate
    pair. *)
Definition escape_char (n : N) : string :=
  let backslash := String reverse_solidus EmptyString in
  if (n =? 34)%N then backslash +:+ String quotation_mark EmptyString
  else if (n =? 92)%N then backslash +:+ backslash
  else if (n =? 10)%N then backslash +:+ "n"
  else if (n =? 13)%N then backslash +:+ "r"
  else if (n =? 9)%N then backslash +:+ "t"
  else if (n =? 8)%N then backslash +:+ "b"
  else if (n =? 12)%N then backslash +:+ "f"
  else if ((32 <=? n) && (n <=? 126))%N then String (ascii_of_N n) EmptyString
  else if (n <? 0x10000)%N then u_escape n
  else u_escape (high_half n) +:+ u_escape (low_half n).

Fixpoint escape (s : pystr) : string :=
  match s with
  | [] => EmptyString
  | n :: rest => escape_char n +:+ escape rest
  end.

Definition dumps_str (s : pystr) : string :=
  String quotation_mark (escape s) +:+ String quotation_mark EmptyString.

(** A Python [float]: not a number, an infinity, or a finite number.  The
    finite numbers and the text [float.__repr__] writes for one are left to
    the interface [FloatText], with the way back ([float] of a numeral with a
    fraction or an exponent). *)
Inductive pyfloat (F : Type) : Type :=
  | NaN
  | Infinity
  | NegInfinity
  | Finite (x : F).
Arguments NaN {F}.
Arguments Infinity {F}.
Arguments NegInfinity {F}.
Arguments Finite {F} x.

Class FloatText : Type := {
  Float : Type;
  float_repr : Float -> string;
  float_of_text : string -> pyfloat Float
}.

Section Json.

Context {floats : FloatText}.

(** The keys [json.dumps] accepts in a dictionary: [str], [int], [float],
    [bool] and [None]; any other key raises [TypeError], as does a value of
    another type than those of [json]. *)
Inductive key : Type :=
  | KStr (s : pystr)
  | KInt (n : Z)
  | KFloat (f : pyfloat Float)
  | KBool (b : bool)
  | KNone.

#[local] Unset Elimination Schemes.
Inductive json : Type :=
  | JNull
  | JBool (b : bool)
  | JInt (n : Z)
  | JFloat (f : pyfloat Float)
  | JStr (s : pystr)
  | JList (items : list json)
  | JDict (items : list (key * json)).
#[local] Set Elimination Schemes.

Definition floatstr (f : pyfloat Float) : string :=
  match f with
  | NaN => "NaN"
  | Infinity => "Infinity"
  | NegInfinity => "-Infinity"
  | Finite x => float_repr x
  end.

(** A key is written as a string: a [str] as it is, the others as the text
    of their value. *)
Definition key_text (k : key) : pystr :=
  match k with
  | KStr s => s
  | KInt n => str_of (pretty n)
  | KFloat f => str_of (floatstr f)
  | KBool true => str_of "true"
  | KBool false => str_of "false"
  | KNone => str_of "null"
  end.

Fixpoint dumps (j : json) : string :=
  match j with
  | JNull => "null"
  | JBool true => "true"
  | JBool false => "false"
  | JInt n => pretty n
  | JFloat f => floatstr f
  | JStr s => dumps_str s
  | JList items => "[" +:+ String.concat ", " (List.map dumps items) +:+ "]"
  | JDict items =>
      "{" +:+ String.concat ", "
               (List.map (fun kv => dumps_str (key_text (fst kv)) +:+ ": " +:+ dumps (snd kv))
                  items)
          +:+ "}"
  end.

(** Reading a [str] key of a dictionary given by its items. *)
Definition key_is (k : pystr) (k' : key) : bool :=
  match k' with
  | KStr s => bool_decide (s = k)
  | _ => false
  end.

Fixpoint dict_get (k : pystr) (items : list (key * json)) : option json :=
  match items with
  | [] => None
  | (k', v) :: rest => if key_is k k' then Some v else dict_get k rest
  end.

End Json.

(** ** Loggers

    A [logging.Logger] is an object shared by reference: [request_logger] and
    [logger] may be one and the same.  The store maps a logger to the
    messages its [info] has been given, oldest first. *)
Definition Logger : Set := nat.

Definition written (l : Logger) (sinks : gmap nat (list string)) : list string :=
  default [] (sinks !! l).

Definition info (l : Logger) (msg : string) (sinks : gmap nat (list string))
    : gmap nat (list string) :=
  <[l := written l sinks ++ [msg]]> sinks.

(** ** The processor object *)

(** An attribute whose type the class does not fix: [None], an [int], a
    [str], or some other object. *)
Inductive PyValue (Obj : Type) : Type :=
  | PyNone
  | PyInt (n : Z)
  | PyStr (s : string)
  | PyObj (o : Obj).
Arguments PyNone {Obj}.
Arguments PyInt {Obj} n.
Arguments PyStr {Obj} s.
Arguments PyObj {Obj} o.

Section WithCollaborators.

(** [Obj]: the collaborators' objects (photographer, window, prompt, ...).
    [Others]: everything else a method can reach and change (the attributes a
    subclass adds, the agents, the application under control). *)
Variables (Obj Others : Type).

(** The attributes [__init__] sets, in its order. *)
Record BaseProcessor : Type := mkBaseProcessor {
  log_path : string;
  photographer : Obj;
  request : string;
  request_logger : Logger;
  logger : Logger;
  _app_window : Obj;
  global_step : Z;
  round_step : Z;
  prev_status : string;
  index : Z;
  _step : Z;
  _status : string;
  _prompt_message : PyValue Obj;
  _response : PyValue Obj;
  _cost : PyValue Obj;
  _control_label : PyValue Obj;
  _control_text : PyValue Obj;
  _response_json : PyValue Obj;
  _results : PyValue Obj;
  app_root : PyValue Obj
}.

(** [BaseProcessor.__init__]. *)
Definition init (index : Z) (log_path : string) (photographer : Obj) (request : string)
    (request_logger logger : Logger) (round_step global_step : Z)
    (prev_status : string) (app_window : Obj) : BaseProcessor :=
  {| log_path := log_path;
     photographer := photographer;
     request := request;
     request_logger := request_logger;
     logger := logger;
     _app_window := app_window;
     global_step := global_step;
     round_step := round_step;
     prev_status := prev_status;
     index := index;
     _step := 0;
     _status := prev_status;
     _prompt_message := PyNone;
     _response := PyNone;
     _cost := PyInt 0;
     _control_label := PyNone;
     _control_text := PyNone;
     _response_json := PyNone;
     _results := PyNone;
     app_root := PyNone |}.

(** The state a method runs in: the processor ([self]), the loggers' sinks and
    the rest of the program's objects. *)
Record Heap : Type := mkHeap {
  self : BaseProcessor;
  sinks : gmap nat (list string);
  others : Others
}.

Definition set_self (p : BaseProcessor) (h : Heap) : Heap :=
  {| self := p; sinks := sinks h; others := others h |}.

Definition set_sinks (s : gmap nat (list string)) (h : Heap) : Heap :=
  {| self := self h; sinks := s; others := others h |}.

Definition set_step (n : Z) (p : BaseProcessor) : BaseProcessor :=
  {| log_path := log_path p;
     photographer := photographer p;
     request := request p;
     request_logger := request_logger p;
     logger := logger p;
     _app_window := _app_window p;
     global_step := global_step p;
     round_step := round_step p;
     prev_status := prev_status p;
     index := index p;
     _step := n;
     _status := _status p;
     _prompt_message := _prompt_message p;
     _response := _response p;
     _cost := _cost p;
     _control_label := _control_label p;
     _control_text := _control_text p;
     _response_json := _response_json p;
     _results := _results p;
     app_root := app_root p |}.

Definition set_status (st : string) (p : BaseProcessor) : BaseProcessor :=
  {| log_path := log_path p;
     photographer := photographer p;
     request := request p;
     request_logger := request_logger p;
     logger := logger p;
     _app_window := _app_window p;
     global_step := global_step p;
     round_step := round_step p;
     prev_status := prev_status p;
     index := index p;
     _step := _step p;
     _status := st;
     _prompt_message := _prompt_message p;
     _response := _response p;
     _cost := _cost p;
     _control_label := _control_label p;
     _control_text := _control_text p;
     _response_json := _response_json p;
     _results := _results p;
     app_root := app_root p |}.

(** [self._status = st] on a heap. *)
Definition with_status (st : string) (h : Heap) : Heap :=
  set_self (set_status st (self h)) h.

(** ** Method calls as a state-and-trace monad *)

(** The methods of the processor that [process] reaches. *)
Inductive Call : Set :=
  | print_step_info_
  | capture_screenshot_
  | get_control_info_
  | get_prompt_message_
  | get_response_
  | is_error_
  | parse_response_
  | execute_action_
  | update_memory_
  | should_create_appagent_
  | create_app_agent_
  | update_step_and_status_
  | update_status_.

(** A computation: from a heap to a result, the heap afterwards and the
    method calls made, in order. *)
Definition M (A : Type) : Type := Heap -> A * Heap * list Call.

Definition ret {A : Type} (a : A) : M A := fun h => (a, h, []).

Definition bind {A B : Type} (m : M A) (k : A -> M B) : M B :=
  fun h =>
    let '(a, h1, t1) := m h in
    let '(b, h2, t2) := k a h1 in
    (b, h2, t1 ++ t2).

#[local] Instance M_ret : MRet M := @ret.
#[local] Instance M_bind : MBind M := fun A B k m => bind m k.

(** Calling method [c] whose body is [body]. *)
Definition invoke {A : Type} (c : Call) (body : M A) : M A :=
  fun h => let '(a, h1, t) := body h in (a, h1, c :: t).

(** A body that only updates the heap, and one that only reads it. *)
Definition update (f : Heap -> Heap) : M unit := fun h => (tt, f h, []).
Definition read {A : Type} (f : Heap -> A) : M A := fun h => (f h, h, []).
Definition effect {A : Type} (f : Heap -> A * Heap) : M A :=
  fun h => (fst (f h), snd (f h), []).

(** The heap a computation ends in, and the calls it made. *)
Definition heap_of {A : Type} (r : A * Heap * list Call) : Heap := snd (fst r).
Definition calls_of {A : Type} (r : A * Heap * list Call) : list Call := snd r.

(** ** The methods a concrete processor supplies

    The nine [@abstractmethod]s, and the two hooks that [BaseProcessor]
    defines with a default body for a subclass to override
    ([should_create_appagent], [create_app_agent]).  Each is the change its
    body makes to the heap; [should_create_appagent] also returns a value.
    [process] catches nothing: a failure reaches it as the status "ERROR"
    that the failing method leaves in [self._status], and so a method is
    taken to return. *)
Class ProcessorMethods : Type := {
  print_step_info : Heap -> Heap;
  capture_screenshot : Heap -> Heap;
  get_control_info : Heap -> Heap;
  get_prompt_message : Heap -> Heap;
  get_response : Heap -> Heap;
  parse_response : Heap -> Heap;
  execute_action : Heap -> Heap;
  update_memory : Heap -> Heap;
  update_status : Heap -> Heap;
  should_create_appagent : Heap -> bool * Heap;
  create_app_agent : Heap -> Heap
}.

(** The bodies [BaseProcessor] itself gives the two hooks:
    [return False] and [pass]. *)
Definition default_should_create_appagent (h : Heap) : bool * Heap := (false, h).
Definition default_create_app_agent (h : Heap) : Heap := h.

Section Methods.

Context {methods : ProcessorMethods}.

(** [is_error]: [self._status == "ERROR"]. *)
Definition is_error : M bool :=
  invoke is_error_ (read (fun h => String.eqb (_status (self h)) "ERROR")).

(** [update_step_and_status]: [self._step += 1], then [self.update_status()]. *)
Definition update_step_and_status : M unit :=
  invoke update_step_and_status_
    (update (fun h => set_self (set_step (_step (self h) + 1) (self h)) h);;
     invoke update_status_ (update update_status)).

(** [process], the template method.  A [return] ends the method where it
    stands. *)
Definition process : M unit :=
  invoke print_step_info_ (update print_step_info);;
  invoke capture_screenshot_ (update capture_screenshot);;
  invoke get_control_info_ (update get_control_info);;
  invoke get_prompt_message_ (update get_prompt_message);;
  invoke get_response_ (update get_response);;
  failed ← is_error;
  if failed : bool then mret tt else
  invoke parse_response_ (update parse_response);;
  failed ← is_error;
  if failed : bool then mret tt else
  invoke execute_action_ (update execute_action);;
  invoke update_memory_ (update update_memory);;
  create ← invoke should_create_appagent_ (effect should_create_appagent);
  (if create : bool then invoke create_app_agent_ (update create_app_agent) else mret tt);;
  update_step_and_status.

(** The heap when [get_response] returns, and the calls made until then. *)
Definition after_get_response (h : Heap) : Heap :=
  get_response (get_prompt_message (get_control_info (capture_screenshot (print_step_info h)))).

Definition calls_until_get_response : list Call :=
  [ print_step_info_; capture_screenshot_; get_control_info_;
    get_prompt_message_; get_response_ ].

(** The heap when [parse_response] returns. *)
Definition after_parse_response (h : Heap) : Heap :=
  parse_response (after_get_response h).

(** The heap when the conditional creation of the app agent is over, with the
    answer of [should_create_appagent]. *)
Definition wants_app_agent (h : Heap) : bool :=
  fst (should_create_appagent (update_memory (execute_action (after_parse_response h)))).

Definition after_agent_creation (h : Heap) : Heap :=
  let asked := should_create_appagent (update_memory (execute_action (after_parse_response h))) in
  if fst asked then create_app_agent (snd asked) else snd asked.

(** [self._step += 1] on a heap. *)
Definition increment_step (h : Heap) : Heap :=
  set_self (set_step (_step (self h) + 1) (self h)) h.

(** The calls [process] has left to make once [get_response] has returned,
    and once [parse_response] has. *)
Definition calls_after_get_response : list Call :=
  [ parse_response_; execute_action_; update_memory_; should_create_appagent_;
    create_app_agent_; update_step_and_status_; update_status_ ].

Definition calls_after_parse_response : list Call :=
  [ execute_action_; update_memory_; should_create_appagent_;
    create_app_agent_; update_step_and_status_; update_status_ ].

(** A method leaves [self._step], or [self._status], as it finds it. *)
Definition keeps_step (f : Heap -> Heap) : Prop :=
  forall h, _step (self (f h)) = _step (self h).

Definition keeps_status (f : Heap -> Heap) : Prop :=
  forall h, _status (self (f h)) = _status (self h).

(** The five methods up to [get_response] all do. *)
Definition until_get_response (keeps : (Heap -> Heap) -> Prop) : Prop :=
  keeps print_step_info /\ keeps capture_screenshot /\ keeps get_control_info
  /\ keeps get_prompt_message /\ keeps get_response.

(** Every method a subclass supplies does. *)
Definition every_method (keeps : (Heap -> Heap) -> Prop) : Prop :=
  until_get_response keeps
  /\ keeps parse_response /\ keeps execute_action /\ keeps update_memory
  /\ keeps (fun h => snd (should_create_appagent h)) /\ keeps create_app_agent
  /\ keeps update_status.

End Methods.

(** The getters: [get_active_window], [get_active_control_text],
    [get_process_status], [get_process_step], [get_process_cost]. *)
Definition get_active_window (p : BaseProcessor) : Obj := _app_window p.
Definition get_active_control_text (p : BaseProcessor) : PyValue Obj := _control_text p.
Definition get_process_status (p : BaseProcessor) : string := _status p.
Definition get_process_step (p : BaseProcessor) : Z := _step p.
Definition get_process_cost (p : BaseProcessor) : PyValue Obj := _cost p.

Context {floats : FloatText}.

(** The dictionary [error_log] builds, in the order of its literal. *)
Definition error_record (p : BaseProcessor) (response_str error : pystr)
    : list (key * json) :=
  [ (KStr (str_of "step"), JInt (_step p));
    (KStr (str_of "status"), JStr (str_of "ERROR"));
    (KStr (str_of "response"), JStr response_str);
    (KStr (str_of "error"), JStr error) ].

(** [error_log]: [json.dumps] of the record, handed to [self.logger.info]. *)
Definition error_log (response_str error : pystr) (h : Heap) : Heap :=
  let log := dumps (JDict (error_record (self h) response_str error)) in
  set_sinks (info (logger (self h)) log (sinks h)) h.

(** [log]: [self.logger.info(json.dumps(response_json))]. *)
Definition log (response_json : list (key * json)) (h : Heap) : Heap :=
  set_sinks (info (logger (self h)) (dumps (JDict response_json)) (sinks h)) h.

End WithCollaborators.

Arguments log_path {Obj} b.
Arguments photographer {Obj} b.
Arguments request {Obj} b.
Arguments request_logger {Obj} b.
Arguments logger {Obj} b.
Arguments _app_window {Obj} b.
Arguments global_step {Obj} b.
Arguments round_step {Obj} b.
Arguments prev_status {Obj} b.
Arguments index {Obj} b.
Arguments _step {Obj} b.
Arguments _status {Obj} b.
Arguments _prompt_message {Obj} b.
Arguments _response {Obj} b.
Arguments _cost {Obj} b.
Arguments _control_label {Obj} b.
Arguments _control_text {Obj} b.
Arguments _response_json {Obj} b.
Arguments _results {Obj} b.
Arguments app_root {Obj} b.
Arguments init {Obj} index log_path photographer request request_logger logger
  round_step global_step prev_status app_window.
Arguments mkHeap {Obj Others} self sinks others.
Arguments self {Obj Others} h.
Arguments sinks {Obj Others} h.
Arguments others {Obj Others} h.
Arguments set_self {Obj Others} p h.
Arguments set_sinks {Obj Others} s h.
Arguments set_step {Obj} n p.
Arguments set_status {Obj} st p.
Arguments ProcessorMethods : clear implicits.
Arguments print_step_info {Obj Others ProcessorMethods} h.
Arguments capture_screenshot {Obj Others ProcessorMethods} h.
Arguments get_control_info {Obj Others ProcessorMethods} h.
Arguments get_prompt_message {Obj Others ProcessorMethods} h.
Arguments get_response {Obj Others ProcessorMethods} h.
Arguments parse_response {Obj Others ProcessorMethods} h.
Arguments execute_action {Obj Others ProcessorMethods} h.
Arguments update_memory {Obj Others ProcessorMethods} h.
Arguments update_status {Obj Others ProcessorMethods} h.
Arguments should_create_appagent {Obj Others ProcessorMethods} h.
Arguments create_app_agent {Obj Others ProcessorMethods} h.
Arguments default_should_create_appagent {Obj Others} h.
Arguments default_create_app_agent {Obj Others} h.
Arguments is_error {Obj Others}.
Arguments update_step_and_status {Obj Others methods}.
Arguments process {Obj Others methods}.
Arguments after_get_response {Obj Others methods} h.
Arguments after_parse_response {Obj Others methods} h.
Arguments wants_app_agent {Obj Others methods} h.
Arguments after_agent_creation {Obj Others methods} h.
Arguments increment_step {Obj Others} h.
Arguments keeps_step {Obj Others} f.
Arguments keeps_status {Obj Others} f.
Arguments until_get_response {Obj Others methods} keeps.
Arguments every_method {Obj Others methods} keeps.
Arguments heap_of {Obj Others A} r.
Arguments calls_of {Obj Others A} r.
Arguments with_status {Obj Others} st h.
Arguments get_active_window {Obj} p.
Arguments get_active_control_text {Obj} p.
Arguments get_process_status {Obj} p.
Arguments get_process_step {Obj} p.
Arguments get_process_cost {Obj} p.
Arguments error_record {Obj floats} p response_str error.
Arguments error_log {Obj Others floats} response_str error h.
Arguments log {Obj Others floats} response_json h.

(** ** The pipeline as the specification lists it

    The twelve stages of section 4.4 of the specification, in its order, and
    the method calls each stage stands for in [process].  Stage 11 asks
    [should_create_appagent] and calls [create_app_agent] on a yes; stage 12
    is [update_step_and_status], which calls [update_status]. *)
Inductive Stage : Set :=
  | print_step_info_stage
  | capture_screenshot_stage
  | get_control_info_stage
  | get_prompt_message_stage
  | get_response_stage
  | short_circuit_check_A
  | parse_response_stage
  | short_circuit_check_B
  | execute_action_stage
  | update_memory_stage
  | conditional_agent_creation
  | update_step_and_status_stage.

Definition pipeline : list Stage :=
  [ print_step_info_stage; capture_screenshot_stage; get_control_info_stage;
    get_prompt_message_stage; get_response_stage; short_circuit_check_A;
    parse_response_stage; short_circuit_check_B; execute_action_stage;
    update_memory_stage; conditional_agent_creation; update_step_and_status_stage ].

Definition calls_of_stage (create : bool) (s : Stage) : list Call :=
  match s with
  | print_step_info_stage => [print_step_info_]
  | capture_screenshot_stage => [capture_screenshot_]
  | get_control_info_stage => [get_control_info_]
  | get_prompt_message_stage => [get_prompt_message_]
  | get_response_stage => [get_response_]
  | short_circuit_check_A => [is_error_]
  | parse_response_stage => [parse_response_]
  | short_circuit_check_B => [is_error_]
  | execute_action_stage => [execute_action_]
  | update_memory_stage => [update_memory_]
  | conditional_agent_creation =>
      should_create_appagent_ :: (if create then [create_app_agent_] else [])
  | update_step_and_status_stage => [update_step_and_status_; update_status_]
  end.

End Processor.

(** * Using the processor: repeated calls, and reading the log back *)
Module ProcessorUse.
Import Processor.

(** ** Characters of a log line *)

(** Every character of a string passes a test. *)
Fixpoint every_char (test : ascii -> bool) (s : string) : bool :=
  match s with
  | EmptyString => true
  | String c rest => test c && every_char test rest
  end.

(** Printable ASCII: space to tilde.  A newline (10) is not. *)
Definition printable (c : ascii) : bool :=
  ((32 <=? N_of_ascii c) && (N_of_ascii c <=? 126))%N.

(** A character of a decimal numeral: a digit or the minus sign. *)
Definition number_char (c : ascii) : bool :=
  ((48 <=? N_of_ascii c) && (N_of_ascii c <=? 57))%N || (N_of_ascii c =? 45)%N.

(** ** Reading a log line back: [json.loads]

    The scanner of Python's [json] module, on a text of characters below 256
    (what [json.dumps] writes is ASCII). *)

(** A digit, and the white space the scanner skips: space, tab, newline and
    carriage return. *)
Definition is_digit (c : ascii) : bool :=
  ((48 <=? N_of_ascii c) && (N_of_ascii c <=? 57))%N.

Definition is_ws (c : ascii) : bool :=
  let n := N_of_ascii c in
  ((n =? 32) || (n =? 9) || (n =? 10) || (n =? 13))%N.

Fixpoint skip_ws (s : string) : string :=
  match s with
  | EmptyString => EmptyString
  | String c rest => if is_ws c then skip_ws rest else s
  end.

(** A hexadecimal digit of a [\uXXXX] escape, in either case, and the number
    four of them write. *)
Definition hex_value (c : ascii) : option N :=
  let n := N_of_ascii c in
  if ((48 <=? n) && (n <=? 57))%N then Some (n - 48)%N
  else if ((97 <=? n) && (n <=? 102))%N then Some (n - 87)%N
  else if ((65 <=? n) && (n <=? 70))%N then Some (n - 55)%N
  else None.

Definition hex4_value (h1 h2 h3 h4 : ascii) : option N :=
  match hex_value h1, hex_value h2, hex_value h3, hex_value h4 with
  | Some d1, Some d2, Some d3, Some d4 => Some (4096 * d1 + 256 * d2 + 16 * d3 + d4)%N
  | _, _, _, _ => None
  end.

(** The surrogates, and the code point of a pair:
    [0x10000 + (((hi - 0xd800) << 10) | (lo - 0xdc00))]. *)
Definition is_high (n : N) : bool := ((0xd800 <=? n) && (n <=? 0xdbff))%N.
Definition is_low (n : N) : bool := ((0xdc00 <=? n) && (n <=? 0xdfff))%N.

Definition join (hi lo : N) : N :=
  (0x10000 + N.lor (N.shiftl (hi - 0xd800) 10) (lo - 0xdc00))%N.

(** The character behind a backslash that stands for one character: the
    quotation mark, the backslash, the slash, and [b], [f], [n], [r], [t]. *)
Definition simple_escape (m : N) : option N :=
  if (m =? 34)%N then Some 34%N
  else if (m =? 92)%N then Some 92%N
  else if (m =? 47)%N then Some 47%N
  else if (m =? 98)%N then Some 8%N
  else if (m =? 102)%N then Some 12%N
  else if (m =? 110)%N then Some 10%N
  else if (m =? 114)%N then Some 13%N
  else if (m =? 116)%N then Some 9%N
  else None.

(** One more code point in front of what the rest of the string gives. *)
Definition push (n : N) (r : option (pystr * string)) : option (pystr * string) :=
  match r with
  | Some (s, rest) => Some (n :: s, rest)
  | None => None
  end.

(** [scanstring], from behind the opening quotation mark: the decoded string
    and the text behind the closing quotation mark, or [None] where Python
    raises [JSONDecodeError] (no closing quotation mark, a control character,
    a bad escape).  The [\uXXXX] of a high surrogate followed by the [\uXXXX]
    of a low one gives the one code point of the pair; a high surrogate
    followed by anything else stands alone. *)
Fixpoint read_string (s : string) : option (pystr * string) :=
  match s with
  | EmptyString => None
  | String c rest =>
      let n := N_of_ascii c in
      if (n =? 34)%N then Some ([], rest)
      else if (n =? 92)%N then
        match rest with
        | EmptyString => None
        | String e rest1 =>
            if (N_of_ascii e =? 117)%N then
              match rest1 with
              | String h1 (String h2 (String h3 (String h4 rest2))) =>
                  match hex4_value h1 h2 h3 h4 with
                  | None => None
                  | Some uni =>
                      if is_high uni then
                        match rest2 with
                        | String b (String u rest3) =>
                            if ((N_of_ascii b =? 92) && (N_of_ascii u =? 117))%N then
                              match rest3 with
                              | String g1 (String g2 (String g3 (String g4 rest4))) =>
                                  match hex4_value g1 g2 g3 g4 with
                                  | None => None
                                  | Some uni2 =>
                                      if is_low uni2
                                      then push (join uni uni2) (read_string rest4)
                                      else push uni (read_string rest2)
                                  end
                              | _ => None
                              end
                            else push uni (read_string rest2)
                        | _ => push uni (read_string rest2)
                        end
                      else push uni (read_string rest2)
                  end
              | _ => None
              end
            else
              match simple_escape (N_of_ascii e) with
              | Some ch => push ch (read_string rest1)
              | None => None
              end
        end
      else if (n <? 32)%N then None
      else push n (read_string rest)
  end.

(** What the scanner gives for the text [json.dumps] wrote for a string: the
    string itself, but a high surrogate followed by a low one comes back as the
    one code point the pair stands for. *)
Fixpoint normal (s : pystr) : pystr :=
  match s with
  | [] => []
  | c :: s' =>
      match s' with
      | d :: s'' =>
          if is_high c && is_low d then join c d :: normal s'' else c :: normal s'
      | [] => [c]
      end
  end.

(** The digits a text starts with and the rest; the value of a row of digits. *)
Fixpoint take_digits (s : string) : string * string :=
  match s with
  | EmptyString => (EmptyString, EmptyString)
  | String c rest =>
      if is_digit c
      then (String c (fst (take_digits rest)), snd (take_digits rest))
      else (EmptyString, s)
  end.

Fixpoint digits_value (acc : N) (digits : string) : N :=
  match digits with
  | EmptyString => acc
  | String c rest => digits_value (10 * acc + (N_of_ascii c - 48)) rest
  end.

(** Tests on the text that is left. *)
Definition is_empty (s : string) : bool :=
  match s with
  | EmptyString => true
  | String _ _ => false
  end.

Definition strip_prefix (p s : string) : option string :=
  if String.prefix p s
  then Some (String.substring (String.length p) (String.length s - String.length p) s)
  else None.

(** The integer part of a number: [0], or a digit from 1 to 9 and more digits. *)
Definition read_int_part (s : string) : option (string * string) :=
  match s with
  | EmptyString => None
  | String c rest =>
      if (N_of_ascii c =? 48)%N then Some ("0", rest)
      else if is_digit c then Some (take_digits s)
      else None
  end.

(** [.] and one digit or more. *)
Definition read_frac (s : string) : string * string :=
  match s with
  | String c rest =>
      if (N_of_ascii c =? 46)%N && negb (is_empty (fst (take_digits rest)))
      then (String c (fst (take_digits rest)), snd (take_digits rest))
      else (EmptyString, s)
  | EmptyString => (EmptyString, s)
  end.

(** [e] or [E], a sign or none, and one digit or more. *)
Definition read_exp (s : string) : string * string :=
  match s with
  | String c rest =>
      if ((N_of_ascii c =? 101) || (N_of_ascii c =? 69))%N then
        match rest with
        | String g rest' =>
            if ((N_of_ascii g =? 43) || (N_of_ascii g =? 45))%N then
              if negb (is_empty (fst (take_digits rest')))
              then (String c (String g (fst (take_digits rest'))), snd (take_digits rest'))
              else (EmptyString, s)
            else
              if negb (is_empty (fst (take_digits rest)))
              then (String c (fst (take_digits rest)), snd (take_digits rest))
              else (EmptyString, s)
        | EmptyString => (EmptyString, s)
        end
      else (EmptyString, s)
  | EmptyString => (EmptyString, s)
  end.

Section Reader.

Context {floats : FloatText}.

(** A number as [NUMBER_RE] matches it: an [int] when it has neither fraction
    nor exponent, else the [float] of the matched text. *)
Definition read_number (s : string) : option (json * string) :=
  let negative :=
    match s with
    | String c _ => (N_of_ascii c =? 45)%N
    | EmptyString => false
    end in
  let unsigned :=
    match s with
    | String c rest => if (N_of_ascii c =? 45)%N then rest else s
    | EmptyString => s
    end in
  match read_int_part unsigned with
  | None => None
  | Some (int_part, s2) =>
      let frac := read_frac s2 in
      let exp := read_exp (snd frac) in
      if is_empty (fst frac) && is_empty (fst exp)
      then
        let magnitude := Z.of_N (digits_value 0 int_part) in
        Some (JInt (if negative then - magnitude else magnitude), snd exp)
      else
        Some (JFloat (float_of_text ((if negative then "-" else "")
                                     +:+ int_part +:+ fst frac +:+ fst exp)),
              snd exp)
  end.

(** [dict(pairs)]: a key seen before keeps its place and takes the new value;
    a new key goes to the end. *)
Fixpoint dict_set (k : pystr) (v : json) (items : list (key * json)) : list (key * json) :=
  match items with
  | [] => [(KStr k, v)]
  | (k', v') :: rest =>
      if key_is k k' then (k', v) :: rest else (k', v') :: dict_set k v rest
  end.

(** [NaN], [Infinity] and [-Infinity], which [scan_once] tries last. *)
Definition read_constant (s : string) : option (json * string) :=
  match strip_prefix "NaN" s with
  | Some rest => Some (JFloat NaN, rest)
  | None =>
      match strip_prefix "Infinity" s with
      | Some rest => Some (JFloat Infinity, rest)
      | None =>
          match strip_prefix "-Infinity" s with
          | Some rest => Some (JFloat NegInfinity, rest)
          | None => None
          end
      end
  end.

(** [null], [true], [false], a number or a constant, in the order [scan_once]
    tries them. *)
Definition read_word (s : string) : option (json * string) :=
  match strip_prefix "null" s with
  | Some rest => Some (JNull, rest)
  | None =>
      match strip_prefix "true" s with
      | Some rest => Some (JBool true, rest)
      | None =>
          match strip_prefix "false" s with
          | Some rest => Some (JBool false, rest)
          | None =>
              match read_number s with
              | Some r => Some r
              | None => read_constant s
              end
          end
      end
  end.

(** [scan_once]: one value and the text behind it.  [read_members] reads the
    members of an object from its first key on, [read_elements] the elements
    of an array from its first element on.  [fuel] bounds the nesting of the
    calls; a call is made only after a character more has been read, so the
    length of the text and one is fuel enough. *)
Fixpoint read_value (fuel : nat) (s : string) : option (json * string) :=
  match fuel with
  | O => None
  | S fuel' =>
      match s with
      | EmptyString => None
      | String c rest =>
          let n := N_of_ascii c in
          if (n =? 34)%N then
            match read_string rest with
            | Some (text, s1) => Some (JStr text, s1)
            | None => None
            end
          else if (n =? 123)%N then
            match skip_ws rest with
            | EmptyString => None
            | String d s1 =>
                if (N_of_ascii d =? 125)%N then Some (JDict [], s1)
                else read_members fuel' (String d s1) []
            end
          else if (n =? 91)%N then
            match skip_ws rest with
            | EmptyString => None
            | String d s1 =>
                if (N_of_ascii d =? 93)%N then Some (JList [], s1)
                else read_elements fuel' (String d s1) []
            end
          else read_word s
      end
  end
with read_members (fuel : nat) (s : string) (seen : list (key * json))
    : option (json * string) :=
  match fuel with
  | O => None
  | S fuel' =>
      match s with
      | EmptyString => None
      | String c rest =>
          if (N_of_ascii c =? 34)%N then
            match read_string rest with
            | None => None
            | Some (k, s1) =>
                match skip_ws s1 with
                | EmptyString => None
                | String colon s2 =>
                    if (N_of_ascii colon =? 58)%N then
                      match read_value fuel' (skip_ws s2) with
                      | None => None
                      | Some (v, s3) =>
                          match skip_ws s3 with
                          | EmptyString => None
                          | String d s4 =>
                              if (N_of_ascii d =? 125)%N
                              then Some (JDict (dict_set k v seen), s4)
                              else if (N_of_ascii d =? 44)%N
                              then read_members fuel' (skip_ws s4) (dict_set k v seen)
                              else None
                          end
                      end
                    else None
                end
            end
          else None
      end
  end
with read_elements (fuel : nat) (s : string) (seen : list json)
    : option (json * string) :=
  match fuel with
  | O => None
  | S fuel' =>
      match read_value fuel' s with
      | None => None
      | Some (v, s1) =>
          match skip_ws s1 with
          | EmptyString => None
          | String d s2 =>
              if (N_of_ascii d =? 93)%N then Some (JList (seen ++ [v]), s2)
              else if (N_of_ascii d =? 44)%N
              then read_elements fuel' (skip_ws s2) (seen ++ [v])
              else None
          end
      end
  end.

(** [json.loads]: one value, white space around it allowed, nothing else. *)
Definition loads (s : string) : option json :=
  match read_value (S (String.length s)) (skip_ws s) with
  | None => None
  | Some (v, rest) => if is_empty (skip_ws rest) then Some v else None
  end.

End Reader.

Section Use.

Context {floats : FloatText} {Obj Others : Type} {methods : ProcessorMethods Obj Others}.

(** Neither check of [process] finds the status "ERROR". *)
Definition runs_to_end (h : Heap Obj Others) : bool :=
  negb (String.eqb (_status (self (after_get_response h))) "ERROR")
  && negb (String.eqb (_status (self (after_parse_response h))) "ERROR").

(** [process] called [n] times in a row on one processor: the heap at the
    end and all the calls made. *)
Fixpoint process_times (n : nat) (h : Heap Obj Others) : Heap Obj Others * list Call :=
  match n with
  | O => (h, [])
  | S n' =>
      let r := process h in
      let later := process_times n' (heap_of r) in
      (fst later, calls_of r ++ snd later)
  end.

(** [error_log] called once for each (response, error) of a list, in order. *)
Definition error_logs (entries : list (pystr * pystr)) (h : Heap Obj Others)
    : Heap Obj Others :=
  foldl (fun h' entry => error_log (fst entry) (snd entry) h') h entries.

End Use.

End ProcessorUse.

(** * Concrete agents and processors, for the examples *)
Module Examples.
Import AppAgentStates.

(** An app agent whose host is named by a string and whose [process] marks
    the agent's status; the states below are bound to agent number 0. *)
Definition any_agent : AppAgent string unit := mkAppAgent "CONTINUE" "host" tt.

Definition finishing (context : option unit) (a : AppAgent string unit)
    : AppAgent string unit :=
  mkAppAgent "FINISH" (host a) (internals a).

Definition resuming (a : AppAgent string unit) : AppAgent string unit :=
  mkAppAgent "CONTINUE" (host a) (internals a).

Definition accepting (self : StateObject nat) : option bool := Some true.
Definition declining (self : StateObject nat) : option bool := Some false.

(** Processors over collaborators that carry no data.  [base_hooks] fills in
    the two hooks with the bodies of [BaseProcessor]. *)
Definition base_hooks (get_response parse_response update_status
                       : Processor.Heap unit unit -> Processor.Heap unit unit)
    : Processor.ProcessorMethods unit unit :=
  {| Processor.print_step_info := fun h => h;
     Processor.capture_screenshot := fun h => h;
     Processor.get_control_info := fun h => h;
     Processor.get_prompt_message := fun h => h;
     Processor.get_response := get_response;
     Processor.parse_response := parse_response;
     Processor.execute_action := fun h => h;
     Processor.update_memory := fun h => h;
     Processor.update_status := update_status;
     Processor.should_create_appagent := Processor.default_should_create_appagent;
     Processor.create_app_agent := Processor.default_create_app_agent |}.

(** The model call fails: [get_response] sets the status to "ERROR". *)
Definition failing_model : Processor.ProcessorMethods unit unit :=
  base_hooks (Processor.with_status "ERROR") (fun h => h) (fun h => h).

(** The response does not parse: [parse_response] sets the status to "ERROR". *)
Definition failing_parse : Processor.ProcessorMethods unit unit :=
  base_hooks (fun h => h) (Processor.with_status "ERROR") (fun h => h).

(** A step that goes through, after which [update_status] decides "FINISH". *)
Definition finishing_step : Processor.ProcessorMethods unit unit :=
  base_hooks (fun h => h) (fun h => h) (Processor.with_status "FINISH").

(** A step whose methods leave the status alone. *)
Definition quiet_step : Processor.ProcessorMethods unit unit :=
  base_hooks (fun h => h) (fun h => h) (fun h => h).

(** A processor as [__init__] leaves it, given the previous status, with
    loggers 1 (requests) and 2 (responses and errors), and its heap. *)
Definition fresh (prev_status : string) : Processor.BaseProcessor unit :=
  Processor.init 0 "logs/" tt "open the file" 1%nat 2%nat 0 0 prev_status tt.

Definition fresh_heap (prev_status : string) : Processor.Heap unit unit :=
  Processor.mkHeap (fresh prev_status) ∅ tt.

(** Floats for the examples: a float is given by the text [float.__repr__]
    writes for it, a text of printable ASCII. *)
Definition printable_text : Type :=
  { s : string | ProcessorUse.every_char ProcessorUse.printable s = true }.

Definition float_of_printable (s : string) : Processor.pyfloat printable_text :=
  match ProcessorUse.every_char ProcessorUse.printable s as b
        return ProcessorUse.every_char ProcessorUse.printable s = b
               -> Processor.pyfloat printable_text
  with
  | true => fun H => Processor.Finite (exist _ s H)
  | false => fun _ => Processor.NaN
  end eq_refl.

Definition text_floats : Processor.FloatText :=
  {| Processor.Float := printable_text;
     Processor.float_repr := fun x => proj1_sig x;
     Processor.float_of_text := float_of_printable |}.

(** A response that tries to close its string and add a key of its own:
    [a", "x": "y], then a newline and the code point U+1F600. *)
Definition forged_response : Processor.pystr :=
  [97; 34; 44; 32; 34; 120; 34; 58; 32; 34; 121; 10; 0x1F600]%N.

(** A step that goes through, after which [update_status] decides "ERROR". *)
Definition failing_update : Processor.ProcessorMethods unit unit :=
  base_hooks (fun h => h) (fun h => h) (Processor.with_status "ERROR").

End Examples.

(** * Properties of the app-agent states *)
Module AppAgentStateFacts.
Import AppAgentStates Examples.

(** Splits a membership [x ∈ [a; b; ...]] into one goal per element. *)
Ltac split_membership H :=
  first [ apply elem_of_nil in H; contradiction
        | apply elem_of_cons in H; destruct H as [H | H];
          [ subst | split_membership H ] ].

(** Proves a membership [x ∈ [a; b; ...]] of a listed element. *)
Ltac listed :=
  repeat first [ apply list_elem_of_here | apply list_elem_of_further ].

(** ** Method resolution *)

(** The fuel of [mro] is enough: every chain of bases ends in the root. *)
Lemma mro_reaches_root (c : AppAgentStateClass) : last (mro c) = Some AppAgentState.
Proof. destruct c; reflexivity. Qed.

Lemma mro_unfold (c b : AppAgentStateClass) : base c = Some b -> mro c = c :: mro b.
Proof. destruct c; intros [= <-]; reflexivity. Qed.

(** A method the class body defines is the one found. *)
Lemma lookup_method_defined {A : Type} (defines : AppAgentStateClass -> option A)
    (c : AppAgentStateClass) (m : A) :
  defines c = Some m -> lookup_method defines c = Some m.
Proof.
  intros Hdef. unfold lookup_method, mro. simpl. rewrite Hdef. reflexivity.
Qed.

(** A method the class body does not define is looked up in the base. *)
Lemma lookup_method_inherited {A : Type} (defines : AppAgentStateClass -> option A)
    (c b : AppAgentStateClass) :
  defines c = None -> base c = Some b ->
  lookup_method defines c = lookup_method defines b.
Proof.
  intros Hdef Hbase. unfold lookup_method.
  rewrite (mro_unfold c b Hbase). simpl. rewrite Hdef. reflexivity.
Qed.

(** ** The state manager *)

Lemma load_states_succeeds : load_states registered_states = Some state_mapping.
Proof. vm_compute. reflexivity. Qed.

Lemma registered_states_distinct : NoDup registered_states /\ List.length registered_states = 9%nat.
Proof.
  split; [ | reflexivity].
  unfold registered_states.
  repeat (apply NoDup_cons; split; [intros Hin; split_membership Hin; discriminate | ]).
  apply NoDup_nil_2.
Qed.

(** Looking a registered state up by its own name gives the state back. *)
Lemma get_state_of_name (c : AppAgentStateClass) :
  c ∈ registered_states -> exists n, name c = Some n /\ get_state n = c.
Proof.
  intros Hc. split_membership Hc; eexists; (split; [reflexivity | vm_compute; reflexivity]).
Qed.

Lemma state_mapping_inserts :
  state_mapping =
    <[value FINISH := FinishAppAgentState]>
   (<[value CONTINUE := ContinueAppAgentState]>
   (<[value SCREENSHOT := ScreenshotAppAgentState]>
   (<[value SWITCH := SwitchAppAgentState]>
   (<[value PENDING := PendingAppAgentState]>
   (<[value CONFIRM := ConfirmAppAgentState]>
   (<[value ERROR := ErrorAppAgentState]>
   (<[value FAIL := FailAppAgentState]>
   (<["" := NoneAppAgentState]> ∅)))))))).
Proof. vm_compute. reflexivity. Qed.

(** A status that is no state's name resolves to the None state. *)
Lemma get_state_unregistered (s : string) :
  (forall st, s <> value st) -> get_state s = NoneAppAgentState.
Proof.
  intros Hs. unfold get_state. rewrite state_mapping_inserts.
  rewrite !lookup_insert_ne by (intros Heq; eapply Hs; symmetry; exact Heq).
  destruct (decide (s = "")) as [-> | Hne].
  - rewrite lookup_insert_eq. reflexivity.
  - rewrite lookup_insert_ne by congruence. rewrite lookup_empty. reflexivity.
Qed.

(** The manager only ever answers with a registered state. *)
Lemma get_state_registered (s : string) : get_state s ∈ registered_states.
Proof.
  unfold get_state. rewrite state_mapping_inserts.
  repeat (rewrite lookup_insert; case_decide; [simpl; unfold registered_states; listed | ]).
  rewrite lookup_empty. simpl. unfold none_state, registered_states. listed.
Qed.

(** ** The methods of the states *)
Section StateMethods.

Context {HostAgent AgentRef Context Internals : Type}.
Variable process : option Context -> AppAgent HostAgent Internals -> AppAgent HostAgent Internals.
Variable process_resume : AppAgent HostAgent Internals -> AppAgent HostAgent Internals.
Variable user_confirm : StateObject AgentRef -> option bool.

Local Abbreviation handle := (handle process process_resume user_confirm).
Local Abbreviation defines_handle := (defines_handle process process_resume user_confirm).
Local Abbreviation defines_next_state :=
  (@AppAgentStates.defines_next_state HostAgent AgentRef Internals).
Local Abbreviation defines_next_agent :=
  (@AppAgentStates.defines_next_agent HostAgent AgentRef Internals).

(** A state whose class body returns a host state class from [next_state]
    returns it for every agent. *)
Lemma next_state_to_host_class (c : AppAgentStateClass) (h : HostAgentStateClass)
    (r : AgentRef) (cf : option bool) (a : AppAgent HostAgent Internals) :
  defines_next_state c = Some (fun _ _ => HostStateClass h) ->
  next_state (mkState c r cf) a = Some (HostStateClass h).
Proof.
  intros Hdef. unfold next_state. simpl.
  rewrite (lookup_method_defined _ _ _ Hdef). reflexivity.
Qed.

(** C2: in the SWITCH state [next_state] is the host's Continue state, and in
    the FINISH, ERROR and FAIL states it is the host's Finish state, whatever
    the agent and its status are. *)
Theorem next_state_fixed_hand_offs
    (r : AgentRef) (cf : option bool) (a a' : AppAgent HostAgent Internals) :
  next_state (mkState SwitchAppAgentState r cf) a = Some (HostStateClass ContinueHostAgentState)
  /\ next_state (mkState FinishAppAgentState r cf) a = Some (HostStateClass FinishHostAgentState)
  /\ next_state (mkState ErrorAppAgentState r cf) a = Some (HostStateClass FinishHostAgentState)
  /\ next_state (mkState FailAppAgentState r cf) a = Some (HostStateClass FinishHostAgentState)
  /\ (forall c, c ∈ [SwitchAppAgentState; FinishAppAgentState; ErrorAppAgentState; FailAppAgentState] ->
        next_state (mkState c r cf) a = next_state (mkState c r cf) a').
Proof.
  split; [ | split; [ | split; [ | split]]].
  - apply next_state_to_host_class. reflexivity.
  - apply next_state_to_host_class. reflexivity.
  - apply next_state_to_host_class. reflexivity.
  - apply next_state_to_host_class. reflexivity.
  - intros c Hc. split_membership Hc;
      (erewrite !next_state_to_host_class by reflexivity; reflexivity).
Qed.

(** C3: [next_agent] of the FINISH, ERROR, FAIL, None and SWITCH states is
    the agent's host, not the app agent; in the CONTINUE, SCREENSHOT, PENDING
    and CONFIRM states the inherited [next_agent] is the app agent itself. *)
Theorem next_agent_hand_off
    (self : StateObject AgentRef) (a : AppAgent HostAgent Internals) :
  (cls self ∈ [FinishAppAgentState; ErrorAppAgentState; FailAppAgentState;
               NoneAppAgentState; SwitchAppAgentState] ->
     next_agent self a = Some (TheHost (host a))
     /\ next_agent self a <> Some (TheApp a))
  /\ (cls self ∈ [ContinueAppAgentState; ScreenshotAppAgentState;
                  PendingAppAgentState; ConfirmAppAgentState] ->
     next_agent self a = Some (TheApp a)
     /\ lookup_method defines_next_agent (cls self) = defines_next_agent AppAgentState).
Proof.
  destruct self as [c r cf]. simpl. split; intros Hc.
  - assert (Hhost : next_agent (mkState c r cf) a = Some (TheHost (host a))).
    { unfold next_agent. simpl.
      split_membership Hc;
        (erewrite lookup_method_defined by reflexivity; reflexivity). }
    split; [exact Hhost | ]. rewrite Hhost. discriminate.
  - assert (Hroot : lookup_method defines_next_agent c = defines_next_agent AppAgentState).
    { split_membership Hc.
      + rewrite (lookup_method_inherited _ _ AppAgentState) by reflexivity. reflexivity.
      + rewrite (lookup_method_inherited _ _ ContinueAppAgentState) by reflexivity.
        rewrite (lookup_method_inherited _ _ AppAgentState) by reflexivity. reflexivity.
      + rewrite (lookup_method_inherited _ _ AppAgentState) by reflexivity. reflexivity.
      + rewrite (lookup_method_inherited _ _ AppAgentState) by reflexivity. reflexivity. }
    split; [ | exact Hroot].
    unfold next_agent. simpl. rewrite Hroot. reflexivity.
Qed.

(** C6, as the code has it: [next_state] of the None state is the host's
    None state, and [next_state] of the ERROR state is the host's Finish
    state. *)
Theorem next_state_of_none_and_error
    (r : AgentRef) (cf : option bool) (a : AppAgent HostAgent Internals) :
  next_state (mkState NoneAppAgentState r cf) a = Some (HostStateClass NoneHostAgentState)
  /\ next_state (mkState ErrorAppAgentState r cf) a = Some (HostStateClass FinishHostAgentState).
Proof.
  split; apply next_state_to_host_class; reflexivity.
Qed.

(** Whatever [ScreenshotAppAgentState] does not define itself is what
    [ContinueAppAgentState] has. *)
Lemma screenshot_inherits {A : Type} (defines : AppAgentStateClass -> option A) :
  defines ScreenshotAppAgentState = None ->
  lookup_method defines ScreenshotAppAgentState = lookup_method defines ContinueAppAgentState.
Proof.
  intros Hdef. apply lookup_method_inherited; [exact Hdef | reflexivity].
Qed.

(** C7: the SCREENSHOT state has the methods of the CONTINUE state, all but
    [name]: [handle] calls [agent.process(context)] once, [next_agent] is the
    app agent, [next_state] is constructed from the state the manager has for
    the agent's status, [is_round_end] is false; the names are "SCREENSHOT"
    and "CONTINUE". *)
Theorem screenshot_behaves_as_continue
    (r : AgentRef) (cf : option bool) (a : AppAgent HostAgent Internals)
    (context : option Context) :
  let shot := mkState ScreenshotAppAgentState r cf in
  let cont := mkState ContinueAppAgentState r cf in
  (lookup_method defines_handle ScreenshotAppAgentState
     = lookup_method defines_handle ContinueAppAgentState
   /\ handle shot a context = Some (shot, process context a, [call_process context])
   /\ handle cont a context = Some (cont, process context a, [call_process context]))
  /\ (lookup_method defines_next_agent ScreenshotAppAgentState
        = lookup_method defines_next_agent ContinueAppAgentState
      /\ next_agent shot a = Some (TheApp a)
      /\ next_agent cont a = Some (TheApp a))
  /\ (lookup_method defines_next_state ScreenshotAppAgentState
        = lookup_method defines_next_state ContinueAppAgentState
      /\ next_state shot a = Some (construct (get_state (status a)) r)
      /\ next_state cont a = Some (construct (get_state (status a)) r))
  /\ (is_round_end ScreenshotAppAgentState = Some false
      /\ is_round_end ContinueAppAgentState = Some false)
  /\ (name ScreenshotAppAgentState = Some "SCREENSHOT"
      /\ name ContinueAppAgentState = Some "CONTINUE").
Proof.
  intros shot cont.
  assert (Hh := screenshot_inherits defines_handle eq_refl).
  assert (Ha := screenshot_inherits defines_next_agent eq_refl).
  assert (Hs := screenshot_inherits defines_next_state eq_refl).
  assert (He := screenshot_inherits defines_is_round_end eq_refl).
  assert (Hcont : lookup_method defines_handle ContinueAppAgentState
                  = defines_handle ContinueAppAgentState).
  { apply lookup_method_defined. reflexivity. }
  split; [ | split; [ | split; [ | split]]].
  - split; [exact Hh | ]. split.
    + unfold AppAgentStates.handle, shot. simpl cls. rewrite Hh, Hcont. reflexivity.
    + unfold AppAgentStates.handle, cont. simpl cls. rewrite Hcont. reflexivity.
  - split; [exact Ha | ]. split.
    + unfold next_agent, shot. simpl cls. rewrite Ha. reflexivity.
    + reflexivity.
  - split; [exact Hs | ]. split.
    + unfold next_state, shot. simpl cls. rewrite Hs. reflexivity.
    + reflexivity.
  - split.
    + unfold is_round_end. rewrite He. reflexivity.
    + apply lookup_method_defined. reflexivity.
  - split; apply lookup_method_defined; reflexivity.
Qed.

(** C8: in the CONFIRM state, [handle] with a declining answer makes no call
    on the agent and leaves the agent, its status included, and the class of
    the state as they were; with an accepting answer it calls
    [agent.process_resume()] once and nothing else. *)
Theorem confirm_handle
    (r : AgentRef) (cf : option bool) (a : AppAgent HostAgent Internals)
    (context : option Context) :
  let self := mkState ConfirmAppAgentState r cf in
  let answered := mkState ConfirmAppAgentState r (user_confirm self) in
  (truthy (user_confirm self) = false ->
     handle self a context = Some (answered, a, [])
     /\ next_state answered a = next_state self a)
  /\ (truthy (user_confirm self) = true ->
     handle self a context = Some (answered, process_resume a, [call_process_resume])).
Proof.
  intros self answered.
  assert (Hbody : lookup_method defines_handle ConfirmAppAgentState
                  = defines_handle ConfirmAppAgentState).
  { apply lookup_method_defined. reflexivity. }
  split; intros Hanswer.
  - split; [ | reflexivity].
    unfold AppAgentStates.handle, self. simpl cls. rewrite Hbody. simpl.
    fold self. rewrite Hanswer. reflexivity.
  - unfold AppAgentStates.handle, self. simpl cls. rewrite Hbody. simpl.
    fold self. rewrite Hanswer. reflexivity.
Qed.

(** With the source's own [user_confirm], whose body is [pass], the answer is
    [None]: [handle] never resumes. *)
Lemma confirm_handle_with_stub
    (r : AgentRef) (cf : option bool) (a : AppAgent HostAgent Internals)
    (context : option Context) :
  AppAgentStates.handle process process_resume user_confirm_stub
    (mkState ConfirmAppAgentState r cf) a context
  = Some (mkState ConfirmAppAgentState r None, a, []).
Proof. reflexivity. Qed.

(** Every registered state has a row in the table of the specification, and
    does what its row says. *)
Lemma states_follow_the_table (c : AppAgentStateClass) :
  c ∈ registered_states ->
  exists row, state_table c = Some row
              /\ row_holds process process_resume user_confirm c row.
Proof.
  intros Hc. split_membership Hc; eexists; (split; [reflexivity | ]);
    intros r cf a context self; simpl;
    (split; [ | split; [ | split]]); try reflexivity.
  unfold AppAgentStates.handle. simpl.
  fold self. destruct (truthy (user_confirm self)); reflexivity.
Qed.

End StateMethods.

(** C4: of the nine registered states, [is_round_end] is true in the ERROR
    state and in the None state and false in the seven others. *)
Theorem round_end_states (c : AppAgentStateClass) :
  c ∈ registered_states ->
  is_round_end c
  = Some (bool_decide (c = ErrorAppAgentState \/ c = NoneAppAgentState)).
Proof.
  intros Hc. unfold is_round_end.
  split_membership Hc;
    try (apply lookup_method_defined; reflexivity).
  rewrite (screenshot_inherits _ eq_refl).
  apply lookup_method_defined. reflexivity.
Qed.

Lemma round_end_states_witness :
  ErrorAppAgentState ∈ registered_states
  /\ is_round_end ErrorAppAgentState = Some true
  /\ is_round_end FailAppAgentState = Some false.
Proof.
  assert (He : ErrorAppAgentState ∈ registered_states) by (unfold registered_states; listed).
  assert (Hf : FailAppAgentState ∈ registered_states) by (unfold registered_states; listed).
  split; [exact He | ].
  split; [exact (round_end_states ErrorAppAgentState He)
         | exact (round_end_states FailAppAgentState Hf)].
Defined.

(** ** The claims on concrete agents *)

(** C6 as the claim states it fails: the None state does not lead to the
    host's Finish state while the ERROR state leads to the host's None
    state. *)
Lemma next_state_of_none_and_error_counterexample :
  ~ (next_state (mkState NoneAppAgentState 0%nat None) any_agent
       = Some (HostStateClass FinishHostAgentState)
     /\ next_state (mkState ErrorAppAgentState 0%nat None) any_agent
        = Some (HostStateClass NoneHostAgentState)).
Proof.
  intros [Hnone Herror].
  rewrite (proj1 (next_state_of_none_and_error 0%nat None any_agent)) in Hnone.
  discriminate Hnone.
Qed.

Lemma next_agent_hand_off_witness :
  next_agent (mkState FinishAppAgentState 0%nat None) any_agent = Some (TheHost "host")
  /\ next_agent (mkState PendingAppAgentState 0%nat None) any_agent = Some (TheApp any_agent).
Proof.
  split.
  - apply (next_agent_hand_off (mkState FinishAppAgentState 0%nat None) any_agent).
    simpl. listed.
  - apply (next_agent_hand_off (mkState PendingAppAgentState 0%nat None) any_agent).
    simpl. listed.
Defined.

Lemma confirm_handle_witness :
  handle finishing resuming declining (mkState ConfirmAppAgentState 0%nat None) any_agent None
    = Some (mkState ConfirmAppAgentState 0%nat (Some false), any_agent, [])
  /\ handle finishing resuming accepting (mkState ConfirmAppAgentState 0%nat None) any_agent None
    = Some (mkState ConfirmAppAgentState 0%nat (Some true), resuming any_agent,
            [call_process_resume]).
Proof.
  split.
  - apply (confirm_handle finishing resuming declining 0%nat None any_agent None).
    reflexivity.
  - apply (confirm_handle finishing resuming accepting 0%nat None any_agent None).
    reflexivity.
Defined.

End AppAgentStateFacts.

(** * The reader on what [json.dumps] writes *)
Module JsonFacts.
Import Processor ProcessorUse.

(** ** Bits of a surrogate pair *)

Lemma land_high_low (x y k : N) : (y < 2 ^ k)%N -> N.land (x * 2 ^ k) y = 0%N.
Proof.
  intros Hy. apply N.bits_inj. intros i. rewrite N.land_spec, N.bits_0.
  destruct (N.lt_ge_cases i k) as [Hlow | Hhigh].
  - rewrite N.mul_pow2_bits_low by exact Hlow. reflexivity.
  - destruct (N.eq_dec y 0) as [-> | Hpos].
    + rewrite N.bits_0. apply andb_false_r.
    + rewrite (N.bits_above_log2 y i); [apply andb_false_r | ].
      apply N.log2_lt_pow2; [lia | ].
      apply N.lt_le_trans with (2 ^ k)%N; [exact Hy | ].
      apply N.pow_le_mono_r; lia.
Qed.

Lemma lor_high_low (x y k : N) : (y < 2 ^ k)%N -> N.lor (x * 2 ^ k) y = (x * 2 ^ k + y)%N.
Proof.
  intros Hy. rewrite <- N.lxor_lor by (apply land_high_low; exact Hy).
  symmetry. apply N.add_nocarry_lxor. apply land_high_low. exact Hy.
Qed.

Lemma high_half_value (n : N) : high_half n = (0xd800 + ((n - 0x10000) / 1024) mod 1024)%N.
Proof.
  unfold high_half. change 0x3ff%N with (N.ones 10).
  rewrite N.land_ones, N.shiftr_div_pow2.
  change 0xd800%N with (54 * 2 ^ 10)%N. rewrite lor_high_low; [reflexivity | ].
  apply N.mod_lt. discriminate.
Qed.

Lemma low_half_value (n : N) : low_half n = (0xdc00 + (n - 0x10000) mod 1024)%N.
Proof.
  unfold low_half. change 0x3ff%N with (N.ones 10).
  rewrite N.land_ones.
  change 0xdc00%N with (55 * 2 ^ 10)%N. rewrite lor_high_low; [reflexivity | ].
  apply N.mod_lt. discriminate.
Qed.

Lemma halves_are_surrogates (n : N) :
  is_high (high_half n) = true /\ is_low (low_half n) = true
  /\ (high_half n < 65536)%N /\ (low_half n < 65536)%N.
Proof.
  rewrite high_half_value, low_half_value. unfold is_high, is_low.
  assert (H1 : (((n - 0x10000) / 1024) mod 1024 < 1024)%N) by (apply N.mod_lt; discriminate).
  assert (H2 : ((n - 0x10000) mod 1024 < 1024)%N) by (apply N.mod_lt; discriminate).
  revert H1 H2.
  generalize (((n - 0x10000) / 1024) mod 1024)%N, ((n - 0x10000) mod 1024)%N.
  intros a b Ha Hb.
  repeat split; try (apply andb_true_iff; split; apply N.leb_le); lia.
Qed.

Lemma join_halves (n : N) :
  (0x10000 <= n < 0x110000)%N -> join (high_half n) (low_half n) = n.
Proof.
  intros [Hlo Hhi]. unfold join. rewrite high_half_value, low_half_value.
  assert (Hcancel : forall k x : N, (k + x - k = x)%N) by (intros; lia).
  rewrite !Hcancel.
  rewrite N.shiftl_mul_pow2, lor_high_low by (apply N.mod_lt; discriminate).
  change (2 ^ 10)%N with 1024%N.
  rewrite (N.mod_small ((n - 0x10000) / 1024) 1024)
    by (apply N.Div0.div_lt_upper_bound; lia).
  pose proof (N.div_mod (n - 0x10000) 1024) as Hdiv.
  revert Hdiv.
  generalize ((n - 0x10000) / 1024)%N, ((n - 0x10000) mod 1024)%N.
  intros a b Hdiv. lia.
Qed.

(** A high and a low surrogate joined are the one code point whose halves
    they are. *)
Lemma halves_of_join (hi lo : N) :
  is_high hi = true -> is_low lo = true ->
  (0x10000 <= join hi lo < 0x110000)%N
  /\ high_half (join hi lo) = hi /\ low_half (join hi lo) = lo.
Proof.
  unfold is_high, is_low. intros [H1 H2]%andb_true_iff [H3 H4]%andb_true_iff.
  apply N.leb_le in H1, H2, H3, H4.
  assert (Hcancel : forall k x : N, (k + x - k = x)%N) by (intros; lia).
  assert (Hjoin : join hi lo = (0x10000 + ((lo - 0xdc00) + (hi - 0xd800) * 1024))%N).
  { unfold join. rewrite N.shiftl_mul_pow2, lor_high_low.
    - change (2 ^ 10)%N with 1024%N. lia.
    - change (2 ^ 10)%N with 1024%N. lia. }
  rewrite high_half_value, low_half_value, Hjoin, !Hcancel.
  rewrite N.div_add by discriminate. rewrite N.Div0.mod_add.
  rewrite (N.div_small (lo - 0xdc00) 1024) by lia.
  rewrite (N.mod_small (lo - 0xdc00) 1024) by lia.
  rewrite N.add_0_l. rewrite (N.mod_small (hi - 0xd800) 1024) by lia.
  repeat split; lia.
Qed.

(** ** Hexadecimal digits *)

Ltac below_16 d H :=
  assert (d = 0 \/ d = 1 \/ d = 2 \/ d = 3 \/ d = 4 \/ d = 5 \/ d = 6 \/ d = 7
          \/ d = 8 \/ d = 9 \/ d = 10 \/ d = 11 \/ d = 12 \/ d = 13 \/ d = 14
          \/ d = 15)%N as H by lia;
  repeat (destruct H as [H | H]; [subst d | ]); [ .. | subst d].

Lemma hex_value_hex_digit (d : N) : (d < 16)%N -> hex_value (hex_digit d) = Some d.
Proof. intros Hd. below_16 d Hcase; reflexivity. Qed.

Lemma hex4_value_hex4 (n : N) (t : string) :
  (n < 65536)%N ->
  hex4 n +:+ t
  = String (hex_digit (n / 4096 mod 16))
      (String (hex_digit (n / 256 mod 16))
         (String (hex_digit (n / 16 mod 16)) (String (hex_digit (n mod 16)) t)))
  /\ hex4_value (hex_digit (n / 4096 mod 16)) (hex_digit (n / 256 mod 16))
       (hex_digit (n / 16 mod 16)) (hex_digit (n mod 16)) = Some n.
Proof.
  intros Hn. split; [reflexivity | ].
  unfold hex4_value.
  rewrite !hex_value_hex_digit by (apply N.mod_lt; discriminate).
  f_equal.
  assert (E1 : (n / 16 / 16 = n / 256)%N) by (rewrite N.Div0.div_div; reflexivity).
  assert (E2 : (n / 256 / 16 = n / 4096)%N) by (rewrite N.Div0.div_div; reflexivity).
  pose proof (N.div_mod n 16) as H0.
  pose proof (N.div_mod (n / 16) 16) as H1.
  pose proof (N.div_mod (n / 256) 16) as H2.
  rewrite E1 in H1. rewrite E2 in H2.
  rewrite (N.mod_small (n / 4096) 16) by (apply N.Div0.div_lt_upper_bound; lia).
  revert H0 H1 H2.
  generalize (n / 4096)%N, (n / 256)%N, (n / 16)%N, (n mod 16)%N,
    ((n / 16) mod 16)%N, ((n / 256) mod 16)%N.
  intros. lia.
Qed.

(** ** Text *)

Lemma append_cons (c : ascii) (a b : string) : String c a +:+ b = String c (a +:+ b).
Proof. reflexivity. Qed.

Lemma append_assoc (a b c : string) : (a +:+ b) +:+ c = a +:+ (b +:+ c).
Proof. induction a as [ | x a IH]; [reflexivity | ]. rewrite !append_cons, IH. reflexivity. Qed.

Lemma u_escape_append (n : N) (t : string) :
  u_escape n +:+ t = String reverse_solidus (String "u" (hex4 n +:+ t)).
Proof. reflexivity. Qed.

(** ** One step of the string scanner *)

Lemma read_string_unfold (c : ascii) (rest : string) :
  read_string (String c rest)
  = if (N_of_ascii c =? 34)%N then Some ([], rest)
    else if (N_of_ascii c =? 92)%N then
      match rest with
      | EmptyString => None
      | String e rest1 =>
          if (N_of_ascii e =? 117)%N then
            match rest1 with
            | String h1 (String h2 (String h3 (String h4 rest2))) =>
                match hex4_value h1 h2 h3 h4 with
                | None => None
                | Some uni =>
                    if is_high uni then
                      match rest2 with
                      | String b (String u rest3) =>
                          if ((N_of_ascii b =? 92) && (N_of_ascii u =? 117))%N then
                            match rest3 with
                            | String g1 (String g2 (String g3 (String g4 rest4))) =>
                                match hex4_value g1 g2 g3 g4 with
                                | None => None
                                | Some uni2 =>
                                    if is_low uni2
                                    then push (join uni uni2) (read_string rest4)
                                    else push uni (read_string rest2)
                                end
                            | _ => None
                            end
                          else push uni (read_string rest2)
                      | _ => push uni (read_string rest2)
                      end
                    else push uni (read_string rest2)
                end
            | _ => None
            end
          else
            match simple_escape (N_of_ascii e) with
            | Some ch => push ch (read_string rest1)
            | None => None
            end
      end
    else if (N_of_ascii c <? 32)%N then None
    else push (N_of_ascii c) (read_string rest).
Proof. destruct rest; reflexivity. Qed.

Lemma read_string_quote (rest : string) :
  read_string (String quotation_mark rest) = Some ([], rest).
Proof. reflexivity. Qed.

Lemma read_string_itself (c : ascii) (rest : string) :
  N_of_ascii c <> 34%N -> N_of_ascii c <> 92%N -> (32 <= N_of_ascii c)%N ->
  read_string (String c rest) = push (N_of_ascii c) (read_string rest).
Proof.
  intros Hquote Hback Hprint. rewrite read_string_unfold.
  apply N.eqb_neq in Hquote. apply N.eqb_neq in Hback.
  rewrite Hquote, Hback.
  assert (Hlow : (N_of_ascii c <? 32)%N = false) by (apply N.ltb_ge; exact Hprint).
  rewrite Hlow. reflexivity.
Qed.

Lemma read_string_simple (e : ascii) (c : N) (rest : string) :
  (N_of_ascii e =? 117)%N = false -> simple_escape (N_of_ascii e) = Some c ->
  read_string (String reverse_solidus (String e rest)) = push c (read_string rest).
Proof.
  intros Hu Hsimple. rewrite read_string_unfold.
  change (N_of_ascii reverse_solidus) with 92%N. cbv beta iota.
  change (92 =? 34)%N with false. change (92 =? 92)%N with true. cbv beta iota.
  rewrite Hu, Hsimple. reflexivity.
Qed.

Lemma read_string_u (n : N) (t : string) :
  (n < 65536)%N ->
  read_string (u_escape n +:+ t)
  = if is_high n then
      match t with
      | String b (String u rest3) =>
          if ((N_of_ascii b =? 92) && (N_of_ascii u =? 117))%N then
            match rest3 with
            | String g1 (String g2 (String g3 (String g4 rest4))) =>
                match hex4_value g1 g2 g3 g4 with
                | None => None
                | Some uni2 =>
                    if is_low uni2
                    then push (join n uni2) (read_string rest4)
                    else push n (read_string t)
                end
            | _ => None
            end
          else push n (read_string t)
      | _ => push n (read_string t)
      end
    else push n (read_string t).
Proof.
  intros Hn. rewrite u_escape_append.
  destruct (hex4_value_hex4 n t Hn) as [-> Hvalue].
  rewrite read_string_unfold.
  change (N_of_ascii reverse_solidus) with 92%N.
  change (92 =? 34)%N with false. change (92 =? 92)%N with true.
  change (N_of_ascii "u") with 117%N. change (117 =? 117)%N with true.
  cbv beta iota. rewrite Hvalue. reflexivity.
Qed.

Lemma read_string_u_escape (n : N) (t : string) :
  (n < 65536)%N -> is_high n = false ->
  read_string (u_escape n +:+ t) = push n (read_string t).
Proof. intros Hn Hhigh. rewrite read_string_u by exact Hn. rewrite Hhigh. reflexivity. Qed.

Lemma read_string_pair (hi lo : N) (t : string) :
  (hi < 65536)%N -> (lo < 65536)%N -> is_high hi = true -> is_low lo = true ->
  read_string (u_escape hi +:+ (u_escape lo +:+ t)) = push (join hi lo) (read_string t).
Proof.
  intros Hhi Hlo Hhigh Hlow. rewrite read_string_u by exact Hhi. rewrite Hhigh.
  rewrite u_escape_append.
  destruct (hex4_value_hex4 lo t Hlo) as [-> Hvalue].
  change (N_of_ascii reverse_solidus) with 92%N.
  change (N_of_ascii "u") with 117%N.
  change ((92 =? 92)%N && (117 =? 117)%N) with true.
  cbv beta iota. rewrite Hvalue, Hlow. reflexivity.
Qed.

Lemma read_string_high_then_u (hi m : N) (t : string) :
  (hi < 65536)%N -> (m < 65536)%N -> is_low m = false ->
  read_string (u_escape hi +:+ (u_escape m +:+ t))
  = push hi (read_string (u_escape m +:+ t)).
Proof.
  intros Hhi Hm Hlow. rewrite read_string_u by exact Hhi.
  destruct (is_high hi); [ | reflexivity].
  rewrite (u_escape_append m t).
  destruct (hex4_value_hex4 m t Hm) as [-> Hvalue].
  change (N_of_ascii reverse_solidus) with 92%N.
  change (N_of_ascii "u") with 117%N.
  change ((92 =? 92)%N && (117 =? 117)%N) with true.
  cbv beta iota. rewrite Hvalue, Hlow. reflexivity.
Qed.

Lemma read_string_high_then_char (hi : N) (c : ascii) (t : string) :
  (hi < 65536)%N -> N_of_ascii c <> 92%N ->
  read_string (u_escape hi +:+ String c t) = push hi (read_string (String c t)).
Proof.
  intros Hhi Hc. rewrite read_string_u by exact Hhi.
  destruct (is_high hi); [ | reflexivity].
  apply N.eqb_neq in Hc.
  destruct t as [ | u rest3]; [reflexivity | ].
  rewrite Hc. reflexivity.
Qed.

Lemma read_string_high_then_simple (hi : N) (e : ascii) (t : string) :
  (hi < 65536)%N -> (N_of_ascii e =? 117)%N = false ->
  read_string (u_escape hi +:+ String reverse_solidus (String e t))
  = push hi (read_string (String reverse_solidus (String e t))).
Proof.
  intros Hhi He. rewrite read_string_u by exact Hhi.
  destruct (is_high hi); [ | reflexivity].
  rewrite He, andb_false_r. reflexivity.
Qed.

(** ** The writer's escapes *)

Lemma escape_char_cases (c : N) :
  (c < 0x110000)%N ->
  (exists e, escape_char c = String reverse_solidus (String e EmptyString)
             /\ (N_of_ascii e =? 117)%N = false
             /\ simple_escape (N_of_ascii e) = Some c)
  \/ (escape_char c = String (ascii_of_N c) EmptyString
      /\ (32 <= c <= 126)%N /\ c <> 34%N /\ c <> 92%N)
  \/ (escape_char c = u_escape c /\ (c < 65536)%N)
  \/ (escape_char c = u_escape (high_half c) +:+ u_escape (low_half c)
      /\ (65536 <= c)%N).
Proof.
  intros Hc. unfold escape_char. cbv zeta.
  destruct (N.eqb_spec c 34) as [-> | H34];
    [left; exists quotation_mark; repeat split | ].
  destruct (N.eqb_spec c 92) as [-> | H92];
    [left; exists reverse_solidus; repeat split | ].
  destruct (N.eqb_spec c 10) as [-> | H10]; [left; exists "n"%char; repeat split | ].
  destruct (N.eqb_spec c 13) as [-> | H13]; [left; exists "r"%char; repeat split | ].
  destruct (N.eqb_spec c 9) as [-> | H9]; [left; exists "t"%char; repeat split | ].
  destruct (N.eqb_spec c 8) as [-> | H8]; [left; exists "b"%char; repeat split | ].
  destruct (N.eqb_spec c 12) as [-> | H12]; [left; exists "f"%char; repeat split | ].
  destruct ((32 <=? c)%N && (c <=? 126)%N) eqn:Hprint.
  - right. left. apply andb_true_iff in Hprint. destruct Hprint as [Hlo Hhi].
    apply N.leb_le in Hlo. apply N.leb_le in Hhi. repeat split; assumption.
  - destruct (N.ltb_spec c 0x10000) as [Hbmp | Hastral].
    + right. right. left. split; [reflexivity | exact Hbmp].
    + right. right. right. split; [reflexivity | exact Hastral].
Qed.

Lemma escape_char_surrogate (c : N) :
  (0xd800 <= c <= 0xdfff)%N -> escape_char c = u_escape c.
Proof.
  intros Hc. unfold escape_char. cbv zeta.
  repeat (match goal with
          | |- context [N.eqb c ?k] => destruct (N.eqb_spec c k) as [-> | _]; [lia | ]
          end).
  destruct (N.leb_spec c 126) as [Hsmall | _]; [lia | ].
  rewrite andb_false_r.
  destruct (N.ltb_spec c 0x10000) as [_ | Hbig]; [reflexivity | lia].
Qed.

Lemma is_high_range (c : N) : is_high c = true <-> (0xd800 <= c <= 0xdbff)%N.
Proof. unfold is_high. rewrite andb_true_iff, !N.leb_le. reflexivity. Qed.

Lemma is_low_range (c : N) : is_low c = true <-> (0xdc00 <= c <= 0xdfff)%N.
Proof. unfold is_low. rewrite andb_true_iff, !N.leb_le. reflexivity. Qed.

Lemma is_high_false (c : N) : (c < 0xd800 \/ 0xdbff < c)%N -> is_high c = false.
Proof.
  intros Hc. destruct (is_high c) eqn:E; [ | reflexivity].
  apply is_high_range in E. lia.
Qed.

Lemma is_low_false (c : N) : (c < 0xdc00 \/ 0xdfff < c)%N -> is_low c = false.
Proof.
  intros Hc. destruct (is_low c) eqn:E; [ | reflexivity].
  apply is_low_range in E. lia.
Qed.

Lemma simple_escape_small (m c : N) : simple_escape m = Some c -> (c < 128)%N.
Proof.
  unfold simple_escape.
  repeat (match goal with
          | |- context [N.eqb m ?k] => destruct (N.eqb m k)
          end; [intros [= <-]; reflexivity | ]).
  discriminate.
Qed.

(** ** Reading one written character *)

(** A code point that is no high surrogate is read back as itself. *)
Lemma read_string_escape_char (c : N) (t : string) :
  (c < 0x110000)%N -> is_high c = false ->
  read_string (escape_char c +:+ t) = push c (read_string t).
Proof.
  intros Hc Hhigh.
  destruct (escape_char_cases c Hc)
    as [(e & -> & Hu & Hsimple) | [(-> & Hrange & H34 & H92) | [(-> & Hbmp) | (-> & Hastral)]]].
  - rewrite !append_cons. apply read_string_simple; assumption.
  - rewrite append_cons.
    assert (Hback : N_of_ascii (ascii_of_N c) = c) by (apply N_ascii_embedding; lia).
    rewrite read_string_itself; rewrite Hback; try assumption; [reflexivity | lia].
  - apply read_string_u_escape; assumption.
  - rewrite append_assoc.
    destruct (halves_are_surrogates c) as (Hh & Hl & Hh16 & Hl16).
    rewrite read_string_pair by assumption.
    rewrite join_halves by lia. reflexivity.
Qed.

(** After a lone high surrogate the scanner goes on with the next character,
    unless that is a low surrogate. *)
Lemma read_string_high_then_escape_char (hi d : N) (t : string) :
  (hi < 65536)%N -> (d < 0x110000)%N -> is_low d = false ->
  read_string (u_escape hi +:+ (escape_char d +:+ t))
  = push hi (read_string (escape_char d +:+ t)).
Proof.
  intros Hhi Hd Hlow.
  destruct (escape_char_cases d Hd)
    as [(e & -> & Hu & Hsimple) | [(-> & Hrange & H34 & H92) | [(-> & Hbmp) | (-> & Hastral)]]].
  - rewrite !append_cons. apply read_string_high_then_simple; assumption.
  - rewrite append_cons. apply read_string_high_then_char; [exact Hhi | ].
    rewrite N_ascii_embedding by lia. exact H92.
  - apply read_string_high_then_u; assumption.
  - rewrite append_assoc.
    destruct (halves_are_surrogates d) as (Hh & Hl & Hh16 & Hl16).
    apply read_string_high_then_u; [exact Hhi | exact Hh16 | ].
    apply is_low_false. apply is_high_range in Hh. lia.
Qed.

(** ** Reading a written string *)

Lemma normal_not_high (c : N) (s : pystr) :
  is_high c = false -> normal (c :: s) = c :: normal s.
Proof. intros Hc. destruct s as [ | d s]; [reflexivity | ]. simpl. rewrite Hc. reflexivity. Qed.

Lemma normal_not_low (c d : N) (s : pystr) :
  is_low d = false -> normal (c :: d :: s) = c :: normal (d :: s).
Proof. intros Hd. cbn [normal]. rewrite Hd, andb_false_r. reflexivity. Qed.

Lemma normal_pair (c d : N) (s : pystr) :
  is_high c = true -> is_low d = true -> normal (c :: d :: s) = join c d :: normal s.
Proof. intros Hc Hd. cbn [normal]. rewrite Hc, Hd. reflexivity. Qed.

Lemma escape_cons (c : N) (s : pystr) : escape (c :: s) = escape_char c +:+ escape s.
Proof. reflexivity. Qed.

Lemma read_string_escape_upto (k : nat) (s : pystr) (rest : string) :
  (List.length s <= k)%nat -> valid_str s ->
  read_string (escape s +:+ String quotation_mark rest) = Some (normal s, rest).
Proof.
  revert s. induction k as [ | k IH]; intros s Hlen Hvalid.
  - destruct s; [reflexivity | simpl in Hlen; lia].
  - destruct s as [ | c s]; [reflexivity | ].
    apply Forall_cons in Hvalid. destruct Hvalid as [Hc Hvalid].
    simpl in Hlen.
    rewrite escape_cons, append_assoc.
    destruct (is_high c) eqn:Hhigh.
    + pose proof Hhigh as Hrange. apply is_high_range in Hrange.
      rewrite escape_char_surrogate by lia.
      destruct s as [ | d s].
      * cbn [escape]. change ("" +:+ String quotation_mark rest) with (String quotation_mark rest).
        rewrite read_string_high_then_char; [reflexivity | lia | discriminate].
      * apply Forall_cons in Hvalid. destruct Hvalid as [Hd Hvalid].
        simpl in Hlen.
        destruct (is_low d) eqn:Hlow.
        -- pose proof Hlow as Hrange'. apply is_low_range in Hrange'.
           rewrite escape_cons, append_assoc.
           rewrite (escape_char_surrogate d) by lia.
           rewrite read_string_pair; [ | lia | lia | exact Hhigh | exact Hlow].
           rewrite IH; [ | lia | exact Hvalid].
           rewrite normal_pair by assumption. reflexivity.
        -- rewrite normal_not_low by exact Hlow.
           rewrite escape_cons, append_assoc.
           rewrite read_string_high_then_escape_char; [ | lia | exact Hd | exact Hlow].
           rewrite <- append_assoc, <- escape_cons.
           rewrite IH; [reflexivity | simpl; lia | apply Forall_cons; split; assumption].
    + rewrite read_string_escape_char by assumption.
      rewrite IH; [ | lia | exact Hvalid].
      rewrite normal_not_high by exact Hhigh. reflexivity.
Qed.

Lemma read_string_escape (s : pystr) (rest : string) :
  valid_str s ->
  read_string (escape s +:+ String quotation_mark rest) = Some (normal s, rest).
Proof. apply (read_string_escape_upto (List.length s)). reflexivity. Qed.

Lemma read_string_dumps_str (s : pystr) (rest : string) :
  valid_str s ->
  dumps_str s +:+ rest = String quotation_mark (escape s +:+ String quotation_mark rest)
  /\ read_string (escape s +:+ String quotation_mark rest) = Some (normal s, rest).
Proof.
  intros Hvalid. split; [ | apply read_string_escape; exact Hvalid].
  unfold dumps_str. rewrite !append_cons, append_assoc. reflexivity.
Qed.

(** ** Strings that are written alike *)

Lemma escape_char_astral (n : N) :
  (0x10000 <= n)%N -> escape_char n = u_escape (high_half n) +:+ u_escape (low_half n).
Proof.
  intros Hn. unfold escape_char. cbv zeta.
  repeat (match goal with
          | |- context [N.eqb n ?k] => destruct (N.eqb_spec n k) as [-> | _]; [lia | ]
          end).
  destruct (N.leb_spec n 126) as [Hsmall | _]; [lia | ].
  rewrite andb_false_r.
  destruct (N.ltb_spec n 0x10000) as [Hsmall | _]; [lia | reflexivity].
Qed.

(** A surrogate pair and the code point it stands for are written alike. *)
Lemma escape_char_join (c d : N) :
  is_high c = true -> is_low d = true ->
  escape_char (join c d) = escape_char c +:+ escape_char d.
Proof.
  intros Hc Hd.
  destruct (halves_of_join c d Hc Hd) as ((Hlo & _) & Hhigh & Hlow).
  rewrite escape_char_astral by exact Hlo. rewrite Hhigh, Hlow.
  apply is_high_range in Hc. apply is_low_range in Hd.
  rewrite (escape_char_surrogate c), (escape_char_surrogate d) by lia. reflexivity.
Qed.

Lemma escape_normal_upto (k : nat) (s : pystr) :
  (List.length s <= k)%nat -> escape (normal s) = escape s.
Proof.
  revert s. induction k as [ | k IH]; intros s Hlen.
  - destruct s; [reflexivity | simpl in Hlen; lia].
  - destruct s as [ | c [ | d s]]; [reflexivity | reflexivity | ].
    simpl in Hlen.
    destruct (is_low d) eqn:Hd; [destruct (is_high c) eqn:Hc | ].
    + rewrite normal_pair by assumption.
      rewrite !escape_cons, escape_char_join by assumption.
      rewrite IH by lia. rewrite append_assoc. reflexivity.
    + rewrite normal_not_high by exact Hc.
      rewrite !(escape_cons c). rewrite IH by (simpl; lia). reflexivity.
    + rewrite normal_not_low by exact Hd.
      rewrite !(escape_cons c). rewrite IH by (simpl; lia). reflexivity.
Qed.

Lemma escape_normal (s : pystr) : escape (normal s) = escape s.
Proof. apply (escape_normal_upto (List.length s)). reflexivity. Qed.

(** A string without a high surrogate is read back as it is. *)
Lemma normal_plain (s : pystr) :
  Forall (fun c => is_high c = false) s -> normal s = s.
Proof.
  intros Hplain. induction Hplain as [ | c s Hc Hs IH]; [reflexivity | ].
  rewrite normal_not_high by exact Hc. rewrite IH. reflexivity.
Qed.

(** ** Reading a written integer *)

Lemma every_char_append (test : ascii -> bool) (a b : string) :
  every_char test (a +:+ b) = every_char test a && every_char test b.
Proof.
  induction a as [ | c a IH]; [reflexivity | ].
  rewrite append_cons. simpl. rewrite IH, andb_assoc. reflexivity.
Qed.

Lemma pretty_N_go_chars (test : ascii -> bool) (x : N) (s : string) :
  (forall d, test (pretty_N_char d) = true) ->
  every_char test s = true -> every_char test (pretty_N_go x s) = true.
Proof.
  intros Hdigit. revert s.
  induction (N.lt_wf_0 x) as [x _ IH]. intros s Hs.
  destruct (decide (x = 0%N)) as [-> | Hpos].
  - rewrite pretty_N_go_0. exact Hs.
  - rewrite pretty_N_go_step by lia.
    apply IH; [apply N.div_lt; lia | ].
    simpl. rewrite Hdigit, Hs. reflexivity.
Qed.

Lemma pretty_N_char_code (d : N) : (d < 10)%N -> N_of_ascii (pretty_N_char d) = (48 + d)%N.
Proof.
  intros Hd.
  assert (d = 0 \/ d = 1 \/ d = 2 \/ d = 3 \/ d = 4 \/ d = 5 \/ d = 6 \/ d = 7
          \/ d = 8 \/ d = 9)%N as Hcase by lia.
  repeat (destruct Hcase as [Hcase | Hcase]; [subst d; reflexivity | ]).
  subst d. reflexivity.
Qed.

Lemma pretty_N_char_digit (d : N) : is_digit (pretty_N_char d) = true.
Proof.
  unfold pretty_N_char.
  repeat (match goal with |- context [match ?x with _ => _ end] => destruct x end;
          try reflexivity).
Qed.

Lemma pretty_N_go_append (x : N) (s : string) :
  pretty_N_go x s = pretty_N_go x EmptyString +:+ s.
Proof.
  revert s. induction (N.lt_wf_0 x) as [x _ IH]. intros s.
  destruct (decide (x = 0%N)) as [-> | Hpos].
  - rewrite !pretty_N_go_0. reflexivity.
  - rewrite !(pretty_N_go_step x) by lia.
    assert (Hlt : (x / 10 < x)%N) by (apply N.div_lt; lia).
    rewrite (IH (x / 10)%N Hlt (String (pretty_N_char (x mod 10)) s)).
    rewrite (IH (x / 10)%N Hlt (String (pretty_N_char (x mod 10)) EmptyString)).
    rewrite append_assoc. reflexivity.
Qed.

Lemma digits_value_pretty_N_go (x : N) :
  exists k, forall acc s,
    digits_value acc (pretty_N_go x s) = digits_value (acc * 10 ^ k + x) s.
Proof.
  induction (N.lt_wf_0 x) as [x _ IH].
  destruct (decide (x = 0%N)) as [-> | Hpos].
  - exists 0%N. intros acc s. rewrite pretty_N_go_0. f_equal. simpl. lia.
  - destruct (IH (x / 10)%N) as [k Hk]; [apply N.div_lt; lia | ].
    exists (k + 1)%N. intros acc s.
    rewrite pretty_N_go_step by lia. rewrite Hk. cbn [digits_value]. f_equal.
    rewrite pretty_N_char_code by (apply N.mod_lt; discriminate).
    rewrite N.pow_add_r. change (10 ^ 1)%N with 10%N.
    pose proof (N.div_mod x 10) as Hdiv.
    revert Hdiv. generalize (x / 10)%N, (x mod 10)%N, (10 ^ k)%N. intros q r p Hdiv. lia.
Qed.

Lemma digits_value_pretty (x : N) : digits_value 0 (pretty_N_go x EmptyString) = x.
Proof.
  destruct (digits_value_pretty_N_go x) as [k Hk]. rewrite Hk. simpl. reflexivity.
Qed.

(** A positive numeral starts with a digit from 1 to 9. *)
Lemma pretty_N_go_first (x : N) (s : string) :
  (0 < x)%N ->
  exists c t, pretty_N_go x s = String c t /\ is_digit c = true /\ N_of_ascii c <> 48%N.
Proof.
  revert s. induction (N.lt_wf_0 x) as [x _ IH]. intros s Hpos.
  rewrite pretty_N_go_step by exact Hpos.
  destruct (decide (x / 10 = 0)%N) as [Hsmall | Hbig].
  - rewrite Hsmall, pretty_N_go_0.
    exists (pretty_N_char (x mod 10)), s.
    split; [reflexivity | ]. split; [apply pretty_N_char_digit | ].
    rewrite pretty_N_char_code by (apply N.mod_lt; discriminate).
    apply N.div_small_iff in Hsmall; [ | discriminate].
    rewrite N.mod_small by exact Hsmall. lia.
  - apply IH; [apply N.div_lt; lia | apply N.neq_0_lt_0; exact Hbig].
Qed.

Lemma take_digits_digits (ds : string) (c : ascii) (rest : string) :
  every_char is_digit ds = true -> is_digit c = false ->
  take_digits (ds +:+ String c rest) = (ds, String c rest).
Proof.
  intros Hds Hc. induction ds as [ | d ds IH].
  - change (EmptyString +:+ String c rest) with (String c rest).
    cbn [take_digits]. rewrite Hc. reflexivity.
  - simpl in Hds. apply andb_true_iff in Hds. destruct Hds as [Hd Hds].
    rewrite append_cons. cbn [take_digits]. rewrite Hd, (IH Hds). reflexivity.
Qed.


Lemma pretty_Z_pos (p : positive) : pretty (Z.pos p) = pretty_N_go (N.pos p) EmptyString.
Proof. reflexivity. Qed.

Lemma pretty_Z_neg (p : positive) :
  pretty (Z.neg p) = String "-" (pretty_N_go (N.pos p) EmptyString).
Proof. reflexivity. Qed.

Lemma is_digit_range (c : ascii) : is_digit c = true <-> (48 <= N_of_ascii c <= 57)%N.
Proof. unfold is_digit. rewrite andb_true_iff, !N.leb_le. reflexivity. Qed.

Lemma read_frac_none (c : ascii) (rest : string) :
  N_of_ascii c <> 46%N -> read_frac (String c rest) = (EmptyString, String c rest).
Proof.
  intros Hc. apply N.eqb_neq in Hc. unfold read_frac. rewrite Hc. reflexivity.
Qed.

Lemma read_exp_none (c : ascii) (rest : string) :
  N_of_ascii c <> 101%N -> N_of_ascii c <> 69%N ->
  read_exp (String c rest) = (EmptyString, String c rest).
Proof.
  intros He HE. apply N.eqb_neq in He. apply N.eqb_neq in HE.
  unfold read_exp. rewrite He, HE. reflexivity.
Qed.

Lemma read_int_part_digits (c0 : ascii) (t0 : string) (c : ascii) (rest : string) :
  every_char is_digit (String c0 t0) = true ->
  N_of_ascii c0 <> 48%N \/ t0 = EmptyString ->
  is_digit c = false ->
  read_int_part (String c0 t0 +:+ String c rest) = Some (String c0 t0, String c rest).
Proof.
  intros Hds Hfirst Hc. unfold read_int_part. rewrite append_cons.
  destruct (N.eqb_spec (N_of_ascii c0) 48) as [Hzero | Hnonzero].
  - destruct Hfirst as [Hne | ->]; [contradiction | ].
    rewrite <- (ascii_N_embedding c0), Hzero. reflexivity.
  - pose proof Hds as Hall. simpl in Hds. apply andb_true_iff in Hds.
    destruct Hds as [Hd _]. rewrite Hd.
    rewrite <- append_cons, take_digits_digits by assumption. reflexivity.
Qed.

Section Values.

Context {floats : FloatText}.

(** A numeral is read up to the first character that is no digit, no point
    and no exponent mark. *)
Lemma read_number_digits (minus : bool) (c0 : ascii) (t0 : string) (c : ascii)
    (rest : string) :
  every_char is_digit (String c0 t0) = true ->
  N_of_ascii c0 <> 48%N \/ t0 = EmptyString ->
  is_digit c = false -> N_of_ascii c <> 46%N -> N_of_ascii c <> 101%N ->
  N_of_ascii c <> 69%N ->
  read_number ((if minus then String "-" (String c0 t0) else String c0 t0)
               +:+ String c rest)
  = Some (JInt (if minus then - Z.of_N (digits_value 0 (String c0 t0))
                else Z.of_N (digits_value 0 (String c0 t0))),
          String c rest).
Proof.
  intros Hds Hfirst Hc Hpoint He HE.
  assert (Hc0 : (N_of_ascii c0 =? 45)%N = false).
  { apply N.eqb_neq. simpl in Hds. apply andb_true_iff in Hds. destruct Hds as [Hd _].
    apply is_digit_range in Hd. lia. }
  unfold read_number. destruct minus.
  - rewrite append_cons. change (N_of_ascii "-" =? 45)%N with true. cbv beta iota zeta.
    rewrite read_int_part_digits by assumption.
    rewrite read_frac_none by assumption. cbn [fst snd].
    rewrite read_exp_none by assumption. reflexivity.
  - rewrite append_cons. cbv beta iota zeta. rewrite Hc0. rewrite <- append_cons.
    rewrite read_int_part_digits by assumption.
    rewrite read_frac_none by assumption. cbn [fst snd].
    rewrite read_exp_none by assumption. reflexivity.
Qed.

Lemma read_number_pretty (z : Z) (c : ascii) (rest : string) :
  is_digit c = false -> N_of_ascii c <> 46%N -> N_of_ascii c <> 101%N ->
  N_of_ascii c <> 69%N ->
  read_number (pretty z +:+ String c rest) = Some (JInt z, String c rest).
Proof.
  intros Hc Hpoint He HE. destruct z as [ | p | p].
  - apply (read_number_digits false "0" EmptyString); try assumption;
      [reflexivity | right; reflexivity].
  - rewrite pretty_Z_pos.
    destruct (pretty_N_go_first (N.pos p) EmptyString) as (c0 & t0 & Htext & Hd & Hnz);
      [reflexivity | ].
    pose proof (digits_value_pretty (N.pos p)) as Hvalue.
    pose proof (pretty_N_go_chars is_digit (N.pos p) EmptyString pretty_N_char_digit
                  eq_refl) as Hdigits.
    rewrite Htext in Hvalue, Hdigits |- *.
    rewrite (read_number_digits false c0 t0) by (try assumption; left; exact Hnz).
    rewrite Hvalue. reflexivity.
  - rewrite pretty_Z_neg.
    destruct (pretty_N_go_first (N.pos p) EmptyString) as (c0 & t0 & Htext & Hd & Hnz);
      [reflexivity | ].
    pose proof (digits_value_pretty (N.pos p)) as Hvalue.
    pose proof (pretty_N_go_chars is_digit (N.pos p) EmptyString pretty_N_char_digit
                  eq_refl) as Hdigits.
    rewrite Htext in Hvalue, Hdigits |- *.
    rewrite (read_number_digits true c0 t0) by (try assumption; left; exact Hnz).
    rewrite Hvalue. reflexivity.
Qed.

(** The first character of a numeral is a digit or the minus sign. *)
Lemma pretty_Z_first (z : Z) :
  exists c0 t0, pretty z = String c0 t0
                /\ (is_digit c0 = true \/ N_of_ascii c0 = 45%N).
Proof.
  destruct z as [ | p | p].
  - exists "0"%char, EmptyString. split; [reflexivity | left; reflexivity].
  - rewrite pretty_Z_pos.
    destruct (pretty_N_go_first (N.pos p) EmptyString) as (c0 & t0 & Htext & Hd & _);
      [reflexivity | ].
    exists c0, t0. split; [exact Htext | left; exact Hd].
  - rewrite pretty_Z_neg. eexists _, _. split; [reflexivity | right; reflexivity].
Qed.

Lemma read_word_number (c0 : ascii) (t : string) :
  is_digit c0 = true \/ N_of_ascii c0 = 45%N ->
  read_word (String c0 t)
  = match read_number (String c0 t) with
    | Some r => Some r
    | None => read_constant (String c0 t)
    end.
Proof.
  intros Hc0.
  assert (Hn : c0 <> "n"%char /\ c0 <> "t"%char /\ c0 <> "f"%char).
  { repeat split; intros ->; destruct Hc0 as [H | H]; discriminate H. }
  destruct Hn as (Hn & Ht & Hf).
  unfold read_word, strip_prefix. cbn [String.prefix].
  destruct (ascii_dec "n" c0) as [<- | _]; [contradiction | ].
  destruct (ascii_dec "t" c0) as [<- | _]; [contradiction | ].
  destruct (ascii_dec "f" c0) as [<- | _]; [contradiction | ].
  reflexivity.
Qed.

Lemma skip_ws_first (c0 : ascii) (t : string) :
  is_ws c0 = false -> skip_ws (String c0 t) = String c0 t.
Proof. intros Hc0. cbn [skip_ws]. rewrite Hc0. reflexivity. Qed.

Lemma number_start (c0 : ascii) :
  is_digit c0 = true \/ N_of_ascii c0 = 45%N ->
  is_ws c0 = false /\ (N_of_ascii c0 =? 34)%N = false
  /\ (N_of_ascii c0 =? 123)%N = false /\ (N_of_ascii c0 =? 91)%N = false.
Proof.
  intros Hc0. unfold is_ws. cbv zeta.
  assert (Hrange : (45 <= N_of_ascii c0 <= 57)%N).
  { destruct Hc0 as [H | H]; [apply is_digit_range in H; lia | lia]. }
  repeat split; rewrite ?orb_false_iff; repeat split; apply N.eqb_neq; lia.
Qed.

Lemma read_value_int (fuel : nat) (z : Z) (c : ascii) (rest : string) :
  is_digit c = false -> N_of_ascii c <> 46%N -> N_of_ascii c <> 101%N ->
  N_of_ascii c <> 69%N ->
  skip_ws (pretty z +:+ String c rest) = pretty z +:+ String c rest
  /\ read_value (S fuel) (pretty z +:+ String c rest) = Some (JInt z, String c rest).
Proof.
  intros Hc Hpoint He HE.
  pose proof (read_number_pretty z c rest Hc Hpoint He HE) as Hnumber.
  destruct (pretty_Z_first z) as (c0 & t0 & Htext & Hc0).
  rewrite Htext in Hnumber |- *. rewrite append_cons in Hnumber |- *.
  destruct (number_start c0 Hc0) as (Hws & Hquote & Hbrace & Hbracket).
  split; [apply skip_ws_first; exact Hws | ].
  cbn [read_value]. rewrite Hquote, Hbrace, Hbracket.
  rewrite read_word_number by exact Hc0. rewrite Hnumber. reflexivity.
Qed.

Lemma read_value_str (fuel : nat) (s : pystr) (rest : string) :
  valid_str s ->
  skip_ws (dumps_str s +:+ rest) = dumps_str s +:+ rest
  /\ read_value (S fuel) (dumps_str s +:+ rest) = Some (JStr (normal s), rest).
Proof.
  intros Hvalid. destruct (read_string_dumps_str s rest Hvalid) as [-> Hread].
  split; [reflexivity | ].
  cbn [read_value]. change (N_of_ascii quotation_mark =? 34)%N with true. cbv iota.
  rewrite Hread. reflexivity.
Qed.

(** ** Reading the members of a written object *)

Lemma read_members_member (fuel : nat) (k : pystr) (vtext : string) (v : json)
    (d : ascii) (tail : string) (seen : list (key * json)) :
  valid_str k ->
  skip_ws (vtext +:+ String d tail) = vtext +:+ String d tail ->
  read_value fuel (vtext +:+ String d tail) = Some (v, String d tail) ->
  is_ws d = false ->
  read_members (S fuel) (dumps_str k +:+ (": " +:+ (vtext +:+ String d tail))) seen
  = if (N_of_ascii d =? 125)%N then Some (JDict (dict_set (normal k) v seen), tail)
    else if (N_of_ascii d =? 44)%N
         then read_members fuel (skip_ws tail) (dict_set (normal k) v seen)
         else None.
Proof.
  intros Hvalid Hskip Hvalue Hd.
  destruct (read_string_dumps_str k (": " +:+ (vtext +:+ String d tail)) Hvalid)
    as [-> Hread].
  cbn [read_members]. change (N_of_ascii quotation_mark =? 34)%N with true. cbv iota.
  rewrite Hread.
  change (": " +:+ (vtext +:+ String d tail))
    with (String ":" (String " " (vtext +:+ String d tail))).
  change (skip_ws (String ":" (String " " (vtext +:+ String d tail))))
    with (String ":" (String " " (vtext +:+ String d tail))).
  change (N_of_ascii ":" =? 58)%N with true. cbv iota.
  change (skip_ws (String " " (vtext +:+ String d tail)))
    with (skip_ws (vtext +:+ String d tail)).
  rewrite Hskip, Hvalue. rewrite skip_ws_first by exact Hd. reflexivity.
Qed.

End Values.


(** ** Reading a written object of four members *)

Lemma length_append (a b : string) :
  String.length (a +:+ b) = (String.length a + String.length b)%nat.
Proof.
  induction a as [ | c a IH]; [reflexivity | ].
  rewrite append_cons. simpl. rewrite IH. reflexivity.
Qed.

Section Objects.

Context {floats : FloatText}.

Lemma read_value_object (fuel : nat) (k : pystr) (t : string) (seen : list (key * json)) :
  skip_ws (String "{" (dumps_str k +:+ t)) = String "{" (dumps_str k +:+ t)
  /\ read_value (S fuel) (String "{" (dumps_str k +:+ t))
     = read_members fuel (dumps_str k +:+ t) []
  /\ skip_ws (String " " (dumps_str k +:+ t)) = dumps_str k +:+ t.
Proof. repeat split. Qed.

(** The text of an object with an integer and three strings under four
    string keys, laid out from left to right. *)
Lemma flat_object_text (z : Z) (k1 k2 k3 k4 a b c : pystr) :
  dumps (JDict [ (KStr k1, JInt z); (KStr k2, JStr a); (KStr k3, JStr b); (KStr k4, JStr c) ])
  = String "{"
      (dumps_str k1 +:+ (": " +:+ (pretty z +:+ String "," (String " "
      (dumps_str k2 +:+ (": " +:+ (dumps_str a +:+ String "," (String " "
      (dumps_str k3 +:+ (": " +:+ (dumps_str b +:+ String "," (String " "
      (dumps_str k4 +:+ (": " +:+ (dumps_str c +:+ String "}" EmptyString))))))))))))))).
Proof.
  cbn [dumps List.map String.concat fst snd key_text].
  repeat rewrite ?append_assoc, ?append_cons.
  reflexivity.
Qed.

Lemma loads_flat_object (z : Z) (k1 k2 k3 k4 a b c : pystr) :
  valid_str k1 -> valid_str k2 -> valid_str k3 -> valid_str k4 ->
  valid_str a -> valid_str b -> valid_str c ->
  loads (dumps (JDict [ (KStr k1, JInt z); (KStr k2, JStr a); (KStr k3, JStr b);
                        (KStr k4, JStr c) ]))
  = Some (JDict (dict_set (normal k4) (JStr (normal c))
                   (dict_set (normal k3) (JStr (normal b))
                      (dict_set (normal k2) (JStr (normal a))
                         (dict_set (normal k1) (JInt z) []))))).
Proof.
  intros Hk1 Hk2 Hk3 Hk4 Ha Hb Hc.
  rewrite flat_object_text. unfold loads.
  match goal with
  | |- context [String.length (String _ ?members)] =>
      assert (Hfuel : exists f, String.length members = S (S (S (S (S f)))))
  end.
  { match goal with
    | |- exists f, ?len = _ => assert (Hlen : (5 <= len)%nat)
    end.
    { unfold dumps_str. repeat (rewrite ?length_append; cbn [String.length]). lia. }
    revert Hlen.
    match goal with
    | |- (5 <= ?len)%nat -> _ => generalize len
    end.
    intros [ | [ | [ | [ | [ | n]]]]] Hlen; try lia. exists n. reflexivity. }
  destruct Hfuel as [f Hfuel]. cbn [String.length]. rewrite Hfuel.
  destruct (read_value_object (S (S (S (S (S (S f)))))) k1
              (": " +:+ (pretty z +:+ String "," (String " "
               (dumps_str k2 +:+ (": " +:+ (dumps_str a +:+ String "," (String " "
               (dumps_str k3 +:+ (": " +:+ (dumps_str b +:+ String "," (String " "
               (dumps_str k4 +:+ (": " +:+ (dumps_str c +:+ String "}" EmptyString))))))))))))))
              []) as (-> & -> & _).
  destruct (read_value_int (S (S (S (S f)))) z ","
              (String " "
               (dumps_str k2 +:+ (": " +:+ (dumps_str a +:+ String "," (String " "
               (dumps_str k3 +:+ (": " +:+ (dumps_str b +:+ String "," (String " "
               (dumps_str k4 +:+ (": " +:+ (dumps_str c +:+ String "}" EmptyString))))))))))))
              eq_refl) as [Hskip1 Hvalue1]; [discriminate .. | ].
  rewrite (read_members_member _ k1 _ _ _ _ _ Hk1 Hskip1 Hvalue1 eq_refl).
  change (N_of_ascii "," =? 125)%N with false. change (N_of_ascii "," =? 44)%N with true.
  cbv iota.
  destruct (read_value_object 0 k2
              (": " +:+ (dumps_str a +:+ String "," (String " "
               (dumps_str k3 +:+ (": " +:+ (dumps_str b +:+ String "," (String " "
               (dumps_str k4 +:+ (": " +:+ (dumps_str c +:+ String "}" EmptyString))))))))))
              []) as (_ & _ & ->).
  destruct (read_value_str (S (S (S f))) a
              (String "," (String " "
               (dumps_str k3 +:+ (": " +:+ (dumps_str b +:+ String "," (String " "
               (dumps_str k4 +:+ (": " +:+ (dumps_str c +:+ String "}" EmptyString)))))))))
              Ha) as [Hskip2 Hvalue2].
  rewrite (read_members_member _ k2 _ _ _ _ _ Hk2 Hskip2 Hvalue2 eq_refl).
  change (N_of_ascii "," =? 125)%N with false. change (N_of_ascii "," =? 44)%N with true.
  cbv iota.
  destruct (read_value_object 0 k3
              (": " +:+ (dumps_str b +:+ String "," (String " "
               (dumps_str k4 +:+ (": " +:+ (dumps_str c +:+ String "}" EmptyString))))))
              []) as (_ & _ & ->).
  destruct (read_value_str (S (S f)) b
              (String "," (String " "
               (dumps_str k4 +:+ (": " +:+ (dumps_str c +:+ String "}" EmptyString)))))
              Hb) as [Hskip3 Hvalue3].
  rewrite (read_members_member _ k3 _ _ _ _ _ Hk3 Hskip3 Hvalue3 eq_refl).
  change (N_of_ascii "," =? 125)%N with false. change (N_of_ascii "," =? 44)%N with true.
  cbv iota.
  destruct (read_value_object 0 k4 (": " +:+ (dumps_str c +:+ String "}" EmptyString)) [])
    as (_ & _ & ->).
  destruct (read_value_str (S f) c (String "}" EmptyString) Hc) as [Hskip4 Hvalue4].
  rewrite (read_members_member _ k4 _ _ _ _ _ Hk4 Hskip4 Hvalue4 eq_refl).
  reflexivity.
Qed.

End Objects.

End JsonFacts.

(** * Properties of the step processor *)
Module ProcessorFacts.
Import Processor ProcessorUse Examples JsonFacts.

(** Unfolds the monad down to pairs of a heap and a list of calls. *)
Ltac run :=
  unfold process, update_step_and_status, is_error,
    mbind, mret, M_bind, M_ret, bind, ret, invoke, update, read, effect;
  cbn -[String.eqb].

Lemma status_is_error (s : string) : String.eqb s "ERROR" = true <-> s = "ERROR".
Proof. apply String.eqb_eq. Qed.

Lemma status_is_not_error (s : string) : String.eqb s "ERROR" = false <-> s <> "ERROR".
Proof. apply String.eqb_neq. Qed.

(** The spec's pipeline has twelve stages, each listed once. *)
Lemma pipeline_twelve_stages : NoDup pipeline /\ List.length pipeline = 12%nat.
Proof.
  split; [ | reflexivity].
  unfold pipeline.
  repeat (apply NoDup_cons; split;
          [intros Hin; AppAgentStateFacts.split_membership Hin; discriminate | ]).
  apply NoDup_nil_2.
Qed.

Section Pipeline.

Context {Obj Others : Type} {methods : ProcessorMethods Obj Others}.

(** [process] when the status is "ERROR" at the first check. *)
Lemma process_stops_at_first_check (h : Heap Obj Others) :
  _status (self (after_get_response h)) = "ERROR" ->
  process h = (tt, after_get_response h, calls_until_get_response ++ [is_error_]).
Proof.
  intros Herr. apply status_is_error in Herr.
  run. fold (after_get_response h). rewrite Herr. reflexivity.
Qed.

(** [process] when the status is "ERROR" at the second check only. *)
Lemma process_stops_at_second_check (h : Heap Obj Others) :
  _status (self (after_get_response h)) <> "ERROR" ->
  _status (self (after_parse_response h)) = "ERROR" ->
  process h = (tt, after_parse_response h,
               calls_until_get_response ++ [is_error_; parse_response_; is_error_]).
Proof.
  intros Hok Herr. apply status_is_not_error in Hok. apply status_is_error in Herr.
  run. fold (after_get_response h). rewrite Hok.
  cbn -[String.eqb]. fold (after_parse_response h). rewrite Herr. reflexivity.
Qed.

(** [process] when neither check finds the status "ERROR". *)
Lemma process_runs_to_the_end (h : Heap Obj Others) :
  _status (self (after_get_response h)) <> "ERROR" ->
  _status (self (after_parse_response h)) <> "ERROR" ->
  process h = (tt, update_status (increment_step (after_agent_creation h)),
               calls_until_get_response
               ++ [is_error_; parse_response_; is_error_; execute_action_; update_memory_;
                   should_create_appagent_]
               ++ (if wants_app_agent h then [create_app_agent_] else [])
               ++ [update_step_and_status_; update_status_]).
Proof.
  intros Hok1 Hok2. apply status_is_not_error in Hok1. apply status_is_not_error in Hok2.
  run. fold (after_get_response h). rewrite Hok1.
  cbn -[String.eqb]. fold (after_parse_response h). rewrite Hok2.
  cbn -[String.eqb].
  unfold after_agent_creation, wants_app_agent.
  destruct (should_create_appagent (update_memory (execute_action (after_parse_response h))))
    as [[] h'] eqn:Hask; cbn; reflexivity.
Qed.

(** What the five methods up to [get_response] all keep, the heap after
    [get_response] has as [process] found it. *)
Lemma after_get_response_keeps_step (h : Heap Obj Others) :
  until_get_response keeps_step ->
  _step (self (after_get_response h)) = _step (self h).
Proof.
  intros (H1 & H2 & H3 & H4 & H5). unfold after_get_response.
  rewrite H5, H4, H3, H2, H1. reflexivity.
Qed.

Lemma after_get_response_keeps_status (h : Heap Obj Others) :
  until_get_response keeps_status ->
  _status (self (after_get_response h)) = _status (self h).
Proof.
  intros (H1 & H2 & H3 & H4 & H5). unfold after_get_response.
  rewrite H5, H4, H3, H2, H1. reflexivity.
Qed.

Lemma after_agent_creation_keeps_step (h : Heap Obj Others) :
  every_method keeps_step ->
  _step (self (after_agent_creation h)) = _step (self h).
Proof.
  intros (Hfive & Hparse & Hexec & Hmem & Hask & Hcreate & _).
  unfold after_agent_creation.
  set (h9 := update_memory (execute_action (after_parse_response h))).
  assert (H9 : _step (self h9) = _step (self h)).
  { unfold h9, after_parse_response. rewrite Hmem, Hexec, Hparse.
    apply after_get_response_keeps_step. exact Hfive. }
  destruct (fst (should_create_appagent h9)).
  - rewrite Hcreate, (Hask h9). exact H9.
  - rewrite (Hask h9). exact H9.
Qed.

(** After a stop at the first check, none of the later methods was called. *)
Lemma process_aborts_on_first_error (h : Heap Obj Others) :
  _status (self (after_get_response h)) = "ERROR" ->
  process h = (tt, after_get_response h, calls_until_get_response ++ [is_error_])
  /\ (forall c, c ∈ calls_after_get_response -> c ∉ calls_of (process h)).
Proof.
  intros Herr. rewrite (process_stops_at_first_check h Herr).
  split; [reflexivity | ].
  intros c Hc Hin. unfold calls_of in Hin. simpl in Hin.
  unfold calls_after_get_response in Hc.
  AppAgentStateFacts.split_membership Hc;
    AppAgentStateFacts.split_membership Hin; discriminate.
Qed.

(** C1: if the status is "ERROR" when [get_response] has returned, [process]
    returns after the check: the heap is the one [get_response] left, step
    counter included, and no later method was called.  If the status is
    "ERROR" only when [parse_response] has returned, [process] returns after
    the second check and [execute_action] and the methods after it were not
    called. *)
Theorem process_aborts_on_error (h : Heap Obj Others) :
  (_status (self (after_get_response h)) = "ERROR" ->
     process h = (tt, after_get_response h, calls_until_get_response ++ [is_error_])
     /\ (forall c, c ∈ calls_after_get_response -> c ∉ calls_of (process h))
     /\ _step (self (heap_of (process h))) = _step (self (after_get_response h))
     /\ (until_get_response keeps_step ->
         _step (self (heap_of (process h))) = _step (self h)))
  /\ (_status (self (after_get_response h)) <> "ERROR" ->
      _status (self (after_parse_response h)) = "ERROR" ->
      process h = (tt, after_parse_response h,
                   calls_until_get_response ++ [is_error_; parse_response_; is_error_])
      /\ (forall c, c ∈ calls_after_parse_response -> c ∉ calls_of (process h))).
Proof.
  split.
  - intros Herr.
    destruct (process_aborts_on_first_error h Herr) as (Hrun & Hnone).
    split; [exact Hrun | ]. split; [exact Hnone | ].
    rewrite Hrun. unfold heap_of. simpl. split; [reflexivity | ].
    intros Hkeep. apply after_get_response_keeps_step. exact Hkeep.
  - intros Hok Herr. rewrite (process_stops_at_second_check h Hok Herr).
    split; [reflexivity | ].
    intros c Hc Hin. unfold calls_of in Hin. simpl in Hin.
    unfold calls_after_parse_response in Hc.
    AppAgentStateFacts.split_membership Hc;
      AppAgentStateFacts.split_membership Hin; discriminate.
Qed.

(** C5: if the status is "ERROR" neither when [get_response] has returned nor
    when [parse_response] has, [process] goes through the twelve stages of the
    pipeline in order, once each; [update_step_and_status] adds one to the
    step counter and the heap, status included, is then the one
    [update_status] leaves. *)
Theorem process_runs_every_stage (h : Heap Obj Others) :
  _status (self (after_get_response h)) <> "ERROR" ->
  _status (self (after_parse_response h)) <> "ERROR" ->
  calls_of (process h) = List.concat (List.map (calls_of_stage (wants_app_agent h)) pipeline)
  /\ heap_of (process h) = update_status (increment_step (after_agent_creation h))
  /\ _step (self (increment_step (after_agent_creation h)))
     = _step (self (after_agent_creation h)) + 1
  /\ _status (self (heap_of (process h)))
     = _status (self (update_status (increment_step (after_agent_creation h))))
  /\ (every_method keeps_step -> _step (self (heap_of (process h))) = _step (self h) + 1).
Proof.
  intros Hok1 Hok2. rewrite (process_runs_to_the_end h Hok1 Hok2).
  unfold calls_of, heap_of. simpl fst. simpl snd.
  split; [ | split; [ | split; [ | split]]].
  - unfold pipeline. simpl. destruct (wants_app_agent h); reflexivity.
  - reflexivity.
  - reflexivity.
  - reflexivity.
  - intros Hkeep. destruct Hkeep as (Hfive & Hparse & Hexec & Hmem & Hask & Hcreate & Hstatus).
    rewrite Hstatus. unfold increment_step. simpl.
    rewrite after_agent_creation_keeps_step; [reflexivity | ].
    repeat split; try assumption; apply Hfive.
Qed.


End Pipeline.

(** ** The error record *)

(** What [info] appends is read back last, and only that logger's sink grew. *)
Lemma written_info_same (l : Logger) (msg : string) (sinks : gmap nat (list string)) :
  written l (info l msg sinks) = written l sinks ++ [msg].
Proof. unfold written at 1, info. rewrite lookup_insert_eq. reflexivity. Qed.

Lemma written_info_other (l l' : Logger) (msg : string) (sinks : gmap nat (list string)) :
  l' <> l -> written l' (info l msg sinks) = written l' sinks.
Proof.
  intros Hne. unfold written, info. rewrite lookup_insert_ne by congruence. reflexivity.
Qed.

(** The literals of the source are strings of code points below 256. *)
Lemma valid_str_of (s : string) : valid_str (str_of s).
Proof.
  unfold valid_str, str_of. induction s as [ | c s IH]; simpl; constructor.
  - pose proof (N_ascii_bounded c). lia.
  - exact IH.
Qed.

(** Read back, the text of an error record is an object of four members. *)
Lemma loads_error_record {floats : FloatText} {Obj : Type} (p : BaseProcessor Obj)
    (response_str error : pystr) :
  valid_str response_str -> valid_str error ->
  loads (dumps (JDict (error_record p response_str error)))
  = Some (JDict [ (KStr (str_of "step"), JInt (_step p));
                  (KStr (str_of "status"), JStr (str_of "ERROR"));
                  (KStr (str_of "response"), JStr (normal response_str));
                  (KStr (str_of "error"), JStr (normal error)) ]).
Proof.
  intros Hresponse Herror. unfold error_record.
  rewrite loads_flat_object by (try apply valid_str_of; assumption).
  reflexivity.
Qed.

Section Logging.

Context {floats : FloatText} {Obj Others : Type}.

(** C9: [error_log] hands the logger one record more and touches nothing
    else; the record is the JSON text of an object with the keys "step",
    "status", "response" and "error", in this order, whose "status" is the
    string "ERROR" and whose "step" is the step counter of the processor.
    Read back with [json.loads], the line written is an object of exactly
    these four members, whatever the response and the error contain; the two
    strings come back as they were, a surrogate pair in them as the code
    point it stands for. *)
Theorem error_log_writes_one_record
    (response_str error : pystr) (h : Heap Obj Others) :
  let h' := error_log response_str error h in
  let record := error_record (self h) response_str error in
  written (logger (self h)) (sinks h')
    = written (logger (self h)) (sinks h) ++ [dumps (JDict record)]
  /\ (forall l, l <> logger (self h) -> written l (sinks h') = written l (sinks h))
  /\ self h' = self h
  /\ others h' = others h
  /\ List.map fst record
     = [ KStr (str_of "step"); KStr (str_of "status"); KStr (str_of "response");
         KStr (str_of "error") ]
  /\ dict_get (str_of "step") record = Some (JInt (_step (self h)))
  /\ dict_get (str_of "status") record = Some (JStr (str_of "ERROR"))
  /\ dict_get (str_of "response") record = Some (JStr response_str)
  /\ dict_get (str_of "error") record = Some (JStr error)
  /\ dumps (JDict record)
     = "{" +:+ String.concat ", "
                 [ dumps_str (str_of "step") +:+ ": " +:+ pretty (_step (self h));
                   dumps_str (str_of "status") +:+ ": " +:+ dumps_str (str_of "ERROR");
                   dumps_str (str_of "response") +:+ ": " +:+ dumps_str response_str;
                   dumps_str (str_of "error") +:+ ": " +:+ dumps_str error ]
           +:+ "}"
  /\ (valid_str response_str -> valid_str error ->
      exists line,
        written (logger (self h)) (sinks h')
          = written (logger (self h)) (sinks h) ++ [line]
        /\ loads line
           = Some (JDict [ (KStr (str_of "step"), JInt (_step (self h)));
                           (KStr (str_of "status"), JStr (str_of "ERROR"));
                           (KStr (str_of "response"), JStr (normal response_str));
                           (KStr (str_of "error"), JStr (normal error)) ])).
Proof.
  intros h' record. unfold h', error_log. simpl sinks. simpl self. simpl others.
  split; [apply written_info_same | ].
  split; [intros l Hl; apply written_info_other; exact Hl | ].
  do 8 (split; [reflexivity | ]).
  intros Hresponse Herror. eexists. split; [apply written_info_same | ].
  apply loads_error_record; assumption.
Qed.

End Logging.

(** ** The claims on concrete processors *)

#[local] Existing Instance text_floats.

(** The text [error_log] writes after a failed model call at step 0. *)
Example error_log_text :
  written 2%nat (sinks (error_log (floats := text_floats) (str_of "no reply")
                          (str_of "timeout") (fresh_heap "CONTINUE")))
  = [ "{" +:+ String.concat ", "
                [ String quotation_mark "step" +:+ String quotation_mark ": 0";
                  String quotation_mark "status" +:+ String quotation_mark ": "
                    +:+ String quotation_mark "ERROR" +:+ String quotation_mark "";
                  String quotation_mark "response" +:+ String quotation_mark ": "
                    +:+ String quotation_mark "no reply" +:+ String quotation_mark "";
                  String quotation_mark "error" +:+ String quotation_mark ": "
                    +:+ String quotation_mark "timeout" +:+ String quotation_mark "" ]
          +:+ "}" ].
Proof. vm_compute. reflexivity. Qed.

(** A response with a quotation mark, a newline and a code point beyond
    0xffff: the line is one object still, and the response comes back whole. *)
Lemma error_log_writes_one_record_witness :
  loads (floats := text_floats)
    (dumps (JDict (error_record (fresh "CONTINUE") forged_response (str_of "timeout"))))
  = Some (JDict [ (KStr (str_of "step"), JInt 0);
                  (KStr (str_of "status"), JStr (str_of "ERROR"));
                  (KStr (str_of "response"), JStr forged_response);
                  (KStr (str_of "error"), JStr (str_of "timeout")) ]).
Proof.
  pose proof (error_log_writes_one_record (floats := text_floats) forged_response
                (str_of "timeout") (fresh_heap "CONTINUE")) as H.
  cbv zeta in H.
  destruct H as (Hsink & _ & _ & _ & _ & _ & _ & _ & _ & _ & Hloads).
  destruct Hloads as (line & Hline & Hloads).
  - unfold valid_str, forged_response. repeat (constructor; [reflexivity | ]). constructor.
  - apply valid_str_of.
  - rewrite Hsink in Hline. apply app_inv_head in Hline. injection Hline as <-.
    exact Hloads.
Defined.

Lemma process_aborts_on_error_witness :
  process (methods := failing_model) (fresh_heap "CONTINUE")
    = (tt, with_status "ERROR" (fresh_heap "CONTINUE"),
       [ print_step_info_; capture_screenshot_; get_control_info_;
         get_prompt_message_; get_response_; is_error_ ])
  /\ process (methods := failing_parse) (fresh_heap "CONTINUE")
     = (tt, with_status "ERROR" (fresh_heap "CONTINUE"),
        [ print_step_info_; capture_screenshot_; get_control_info_;
          get_prompt_message_; get_response_; is_error_; parse_response_; is_error_ ]).
Proof.
  split.
  - refine (proj1 (proj1 (process_aborts_on_error (methods := failing_model)
                            (fresh_heap "CONTINUE")) _)).
    reflexivity.
  - refine (proj1 (proj2 (process_aborts_on_error (methods := failing_parse)
                            (fresh_heap "CONTINUE")) _ _)).
    + simpl. discriminate.
    + reflexivity.
Defined.

Lemma process_runs_every_stage_witness :
  calls_of (process (methods := finishing_step) (fresh_heap "CONTINUE"))
    = [ print_step_info_; capture_screenshot_; get_control_info_;
        get_prompt_message_; get_response_; is_error_; parse_response_; is_error_;
        execute_action_; update_memory_; should_create_appagent_;
        update_step_and_status_; update_status_ ]
  /\ _step (self (heap_of (process (methods := finishing_step) (fresh_heap "CONTINUE")))) = 1
  /\ _status (self (heap_of (process (methods := finishing_step) (fresh_heap "CONTINUE"))))
     = "FINISH".
Proof.
  assert (Hok1 : _status (self (after_get_response (methods := finishing_step)
                                  (fresh_heap "CONTINUE"))) <> "ERROR")
    by (simpl; discriminate).
  assert (Hok2 : _status (self (after_parse_response (methods := finishing_step)
                                  (fresh_heap "CONTINUE"))) <> "ERROR")
    by (simpl; discriminate).
  destruct (process_runs_every_stage (methods := finishing_step)
              (fresh_heap "CONTINUE") Hok1 Hok2)
    as (Hcalls & Hheap & _ & _ & Hstep).
  split; [exact Hcalls | ]. split.
  - apply Hstep. repeat split; intros h; reflexivity.
  - rewrite Hheap. reflexivity.
Defined.


End ProcessorFacts.

(** * More on the app-agent states *)
Module AppAgentStateLaws.
Import AppAgentStates Examples AppAgentStateFacts.

(** ** Names *)

(** X1: every registered state has a name, and two different registered
    states have different names: no two [register] decorators compete for one
    status string. *)
Theorem registered_names_distinct (c1 c2 : AppAgentStateClass) :
  c1 ∈ registered_states -> c2 ∈ registered_states -> c1 <> c2 ->
  is_Some (name c1) /\ name c1 <> name c2.
Proof.
  intros H1 H2 Hne.
  split_membership H1; split_membership H2;
    (split; [eexists; reflexivity | ]);
    try (exfalso; apply Hne; reflexivity);
    vm_compute; intros Heq; discriminate Heq.
Qed.

Lemma registered_names_distinct_witness :
  is_Some (name ErrorAppAgentState) /\ name ErrorAppAgentState <> name FailAppAgentState.
Proof.
  apply (registered_names_distinct ErrorAppAgentState FailAppAgentState).
  - unfold registered_states. listed.
  - unfold registered_states. listed.
  - discriminate.
Defined.

(** X2: each member of [AppAgentStatus] is the name of exactly one registered
    state; the one registered state whose name is no member's value is
    [NoneAppAgentState], named by the empty string. *)
Theorem every_status_has_one_state :
  (forall st : AppAgentStatus,
     exists c, c ∈ registered_states /\ name c = Some (value st)
               /\ forall c', c' ∈ registered_states -> name c' = Some (value st) -> c' = c)
  /\ (forall c, c ∈ registered_states ->
        (exists st, name c = Some (value st))
        \/ (c = NoneAppAgentState /\ name c = Some ""
            /\ forall st, value st <> "")).
Proof.
  split.
  - intros st.
    destruct st;
      [ exists ErrorAppAgentState | exists FinishAppAgentState
      | exists SwitchAppAgentState | exists ContinueAppAgentState
      | exists FailAppAgentState | exists PendingAppAgentState
      | exists ConfirmAppAgentState | exists ScreenshotAppAgentState ];
      (split; [unfold registered_states; listed | ]);
      (split; [reflexivity | ]);
      intros c' Hc' Hn'; split_membership Hc';
      first [ reflexivity | vm_compute in Hn'; discriminate Hn' ].
  - intros c Hc. split_membership Hc.
    + left. exists FINISH. reflexivity.
    + left. exists CONTINUE. reflexivity.
    + left. exists SCREENSHOT. reflexivity.
    + left. exists SWITCH. reflexivity.
    + left. exists PENDING. reflexivity.
    + left. exists CONFIRM. reflexivity.
    + left. exists ERROR. reflexivity.
    + left. exists FAIL. reflexivity.
    + right. split; [reflexivity | ]. split; [reflexivity | ].
      intros st. destruct st; discriminate.
Qed.

(** ** Methods *)
Section StateLaws.

Context {HostAgent AgentRef Context Internals : Type}.
Variable process : option Context -> AppAgent HostAgent Internals -> AppAgent HostAgent Internals.
Variable process_resume : AppAgent HostAgent Internals -> AppAgent HostAgent Internals.
Variable user_confirm : StateObject AgentRef -> option bool.

Local Abbreviation handle := (handle process process_resume user_confirm).
Local Abbreviation defines_handle := (defines_handle process process_resume user_confirm).
Local Abbreviation defines_next_state :=
  (@AppAgentStates.defines_next_state HostAgent AgentRef Internals).
Local Abbreviation defines_next_agent :=
  (@AppAgentStates.defines_next_agent HostAgent AgentRef Internals).

(** Constructing a state never gives a host state class. *)
Lemma construct_is_no_host_class (c : AppAgentStateClass) (r : AgentRef)
    (k : HostAgentStateClass) :
  construct c r <> HostStateClass k.
Proof. destruct c; discriminate. Qed.

(** X3: no registered state is abstract: [name], [is_round_end], [handle],
    [next_agent] and [next_state] all resolve to a body, in the class or in a
    base; [AppAgentState] itself leaves [name] and [is_round_end] without
    one. *)
Theorem registered_states_are_concrete :
  (forall c, c ∈ registered_states ->
     is_Some (name c) /\ is_Some (is_round_end c)
     /\ is_Some (lookup_method defines_handle c)
     /\ is_Some (lookup_method defines_next_agent c)
     /\ is_Some (lookup_method defines_next_state c))
  /\ name AppAgentState = None
  /\ is_round_end AppAgentState = None.
Proof.
  split; [ | split; reflexivity].
  intros c Hc.
  split_membership Hc; repeat split; eexists; reflexivity.
Qed.

(** X4: for a registered state, the next state belongs to the machine of the
    next agent: where [next_agent] is the host, [next_state] is one host state
    class whatever the agent is; where [next_agent] is the app agent,
    [next_state] is the body inherited from [AppAgentState] and never a host
    state class. *)
Theorem next_state_matches_next_agent
    (self : StateObject AgentRef) (a : AppAgent HostAgent Internals) :
  cls self ∈ registered_states ->
  (next_agent self a = Some (TheHost (host a))
   /\ exists k, forall a' : AppAgent HostAgent Internals,
        next_state self a' = Some (HostStateClass k))
  \/ (next_agent self a = Some (TheApp a)
      /\ lookup_method defines_next_state (cls self) = defines_next_state AppAgentState
      /\ forall k, next_state self a <> Some (HostStateClass k)).
Proof.
  destruct self as [c r cf]. simpl. intros Hc.
  assert (Hderived : forall k,
            Some (construct (get_state (status a)) r) <> Some (HostStateClass k)).
  { intros k [= Heq]. exact (construct_is_no_host_class _ _ _ Heq). }
  split_membership Hc.
  - left. split; [reflexivity | ]. exists FinishHostAgentState. reflexivity.
  - right. split; [reflexivity | ]. split; [reflexivity | exact Hderived].
  - right. split; [reflexivity | ]. split; [reflexivity | exact Hderived].
  - left. split; [reflexivity | ]. exists ContinueHostAgentState. reflexivity.
  - right. split; [reflexivity | ]. split; [reflexivity | exact Hderived].
  - right. split; [reflexivity | ]. split; [reflexivity | exact Hderived].
  - left. split; [reflexivity | ]. exists FinishHostAgentState. reflexivity.
  - left. split; [reflexivity | ]. exists FinishHostAgentState. reflexivity.
  - left. split; [reflexivity | ]. exists NoneHostAgentState. reflexivity.
Qed.

(** X5: a state that ends the round does no work and gives control to the
    host: [handle] makes no call and changes nothing, [next_agent] is the
    host and [next_state] a host state class. *)
Theorem round_end_hands_to_host
    (self : StateObject AgentRef) (a : AppAgent HostAgent Internals)
    (context : option Context) :
  is_round_end (cls self) = Some true ->
  handle self a context = Some (self, a, [])
  /\ next_agent self a = Some (TheHost (host a))
  /\ exists k, next_state self a = Some (HostStateClass k).
Proof.
  destruct self as [c r cf]. simpl. intros Hend.
  destruct c; try (vm_compute in Hend; discriminate Hend).
  - split; [reflexivity | ]. split; [reflexivity | ].
    exists FinishHostAgentState. reflexivity.
  - split; [reflexivity | ]. split; [reflexivity | ].
    exists NoneHostAgentState. reflexivity.
Qed.

(** X6: whatever the state, [handle] returns a state object of the same class
    bound to the same agent, makes at most one call on the agent, and leaves
    the agent as it was when it makes none; only the CONFIRM state writes
    [_confirm]. *)
Theorem handle_keeps_the_state_object
    (self self' : StateObject AgentRef) (a a' : AppAgent HostAgent Internals)
    (context : option Context) (calls : list (AgentCall Context)) :
  handle self a context = Some (self', a', calls) ->
  cls self' = cls self
  /\ agent self' = agent self
  /\ (List.length calls <= 1)%nat
  /\ (calls = [] -> a' = a)
  /\ (_confirm self' <> _confirm self -> cls self = ConfirmAppAgentState).
Proof.
  destruct self as [c r cf]. unfold AppAgentStates.handle. simpl cls.
  destruct c; simpl;
    try match goal with
        | |- context [truthy ?answer] => destruct (truthy answer)
        end;
    intros [= <- <- <-]; simpl;
    repeat split; try lia; try reflexivity; try discriminate;
    intros Hne; exfalso; apply Hne; reflexivity.
Qed.

(** X7: [agent.process] is called by the CONTINUE and SCREENSHOT states only,
    with the context [handle] was given, and [agent.process_resume] by the
    CONFIRM state only, on an accepting answer. *)
Theorem handle_calls_by_state
    (self self' : StateObject AgentRef) (a a' : AppAgent HostAgent Internals)
    (context : option Context) (calls : list (AgentCall Context)) :
  handle self a context = Some (self', a', calls) ->
  (forall k, call_process k ∈ calls ->
     cls self ∈ [ContinueAppAgentState; ScreenshotAppAgentState]
     /\ k = context /\ a' = process context a)
  /\ (call_process_resume ∈ calls ->
      cls self = ConfirmAppAgentState
      /\ truthy (user_confirm self) = true /\ a' = process_resume a).
Proof.
  destruct self as [c r cf]. unfold AppAgentStates.handle. simpl cls.
  destruct c; simpl;
    try match goal with
        | |- context [truthy ?answer] => destruct (truthy answer) eqn:Hanswer
        end;
    intros [= <- <- <-]; split;
    try (intros k Hin); try (intros Hin);
    split_membership Hin;
    try discriminate Hin.
  all: try (injection Hin as ->).
  all: split; [first [reflexivity | listed] | split; reflexivity].
Qed.

End StateLaws.

Lemma next_state_matches_next_agent_witness :
  next_agent (mkState SwitchAppAgentState 0%nat None) any_agent = Some (TheHost "host")
  /\ next_state (mkState SwitchAppAgentState 0%nat None) any_agent
     = Some (HostStateClass ContinueHostAgentState).
Proof.
  destruct (next_state_matches_next_agent (mkState SwitchAppAgentState 0%nat None) any_agent)
    as [[Hagent [k Hstate]] | [Hagent _]].
  - simpl. unfold registered_states. listed.
  - split; [exact Hagent | reflexivity].
  - discriminate Hagent.
Defined.

Lemma round_end_hands_to_host_witness :
  handle finishing resuming declining (mkState ErrorAppAgentState 0%nat None) any_agent None
    = Some (mkState ErrorAppAgentState 0%nat None, any_agent, [])
  /\ next_agent (mkState ErrorAppAgentState 0%nat None) any_agent = Some (TheHost "host").
Proof.
  destruct (round_end_hands_to_host finishing resuming declining
              (mkState ErrorAppAgentState 0%nat None) any_agent None eq_refl)
    as (Hhandle & Hagent & _).
  split; [exact Hhandle | exact Hagent].
Defined.

Lemma handle_keeps_the_state_object_witness :
  cls (mkState ConfirmAppAgentState 0%nat (Some true)) = ConfirmAppAgentState
  /\ (List.length [call_process_resume (Context := unit)] <= 1)%nat.
Proof.
  destruct (handle_keeps_the_state_object finishing resuming accepting
              (mkState ConfirmAppAgentState 0%nat None)
              (mkState ConfirmAppAgentState 0%nat (Some true))
              any_agent (resuming any_agent) None [call_process_resume] eq_refl)
    as (Hcls & _ & Hcalls & _).
  split; [exact Hcls | exact Hcalls].
Defined.

Lemma handle_calls_by_state_witness :
  ContinueAppAgentState ∈ [ContinueAppAgentState; ScreenshotAppAgentState]
  /\ finishing None any_agent = finishing None any_agent.
Proof.
  destruct (handle_calls_by_state finishing resuming declining
              (mkState ContinueAppAgentState 0%nat None)
              (mkState ContinueAppAgentState 0%nat None)
              any_agent (finishing None any_agent) None [call_process None] eq_refl)
    as [Hprocess _].
  destruct (Hprocess None) as (Hcls & _ & Hagent).
  - listed.
  - split; [exact Hcls | exact Hagent].
Defined.

End AppAgentStateLaws.

(** * More on the step processor *)
Module ProcessorLaws.
Import Processor ProcessorUse Examples JsonFacts ProcessorFacts.

Section PipelineLaws.

Context {Obj Others : Type} {methods : ProcessorMethods Obj Others}.

(** The calls of a run to the end. *)
Local Abbreviation full_run h :=
  (calls_until_get_response
   ++ [is_error_; parse_response_; is_error_; execute_action_; update_memory_;
       should_create_appagent_]
   ++ (if wants_app_agent h then [create_app_agent_] else [])
   ++ [update_step_and_status_; update_status_]).

(** The three ways [process] can go, by the status at the two checks. *)
Lemma process_outcome (h : Heap Obj Others) :
  (_status (self (after_get_response h)) = "ERROR"
   /\ runs_to_end h = false
   /\ process h = (tt, after_get_response h, calls_until_get_response ++ [is_error_]))
  \/ (_status (self (after_get_response h)) <> "ERROR"
      /\ _status (self (after_parse_response h)) = "ERROR"
      /\ runs_to_end h = false
      /\ process h = (tt, after_parse_response h,
                      calls_until_get_response ++ [is_error_; parse_response_; is_error_]))
  \/ (_status (self (after_get_response h)) <> "ERROR"
      /\ _status (self (after_parse_response h)) <> "ERROR"
      /\ runs_to_end h = true
      /\ process h = (tt, update_status (increment_step (after_agent_creation h)),
                      full_run h)).
Proof.
  unfold runs_to_end.
  destruct (String.eqb (_status (self (after_get_response h))) "ERROR") eqn:H1.
  - left. apply status_is_error in H1.
    split; [exact H1 | ]. split; [reflexivity | ].
    apply process_stops_at_first_check. exact H1.
  - right. apply status_is_not_error in H1.
    destruct (String.eqb (_status (self (after_parse_response h))) "ERROR") eqn:H2.
    + left. apply status_is_error in H2.
      split; [exact H1 | ]. split; [exact H2 | ]. split; [reflexivity | ].
      apply process_stops_at_second_check; assumption.
    + right. apply status_is_not_error in H2.
      split; [exact H1 | ]. split; [exact H2 | ]. split; [reflexivity | ].
      apply process_runs_to_the_end; assumption.
Qed.

(** X8: whatever the status is when [process] is entered, it calls the five
    methods up to [get_response] and then [is_error]; that is all it calls
    exactly when the status is "ERROR" once [get_response] has returned. *)
Theorem process_always_reaches_first_check (h : Heap Obj Others) :
  exists rest,
    calls_of (process h) = calls_until_get_response ++ [is_error_] ++ rest
    /\ (rest = [] <-> _status (self (after_get_response h)) = "ERROR").
Proof.
  destruct (process_outcome h)
    as [(H1 & _ & Hrun) | [(H1 & H2 & _ & Hrun) | (H1 & H2 & _ & Hrun)]];
    rewrite Hrun; unfold calls_of; simpl snd.
  - exists []. split; [reflexivity | ]. split; intros _; [exact H1 | reflexivity].
  - exists [parse_response_; is_error_]. split; [reflexivity | ].
    split; [discriminate | intros Herr; contradiction].
  - eexists. split; [reflexivity | ].
    split; [discriminate | intros Herr; contradiction].
Qed.

(** X9: with methods that leave the step counter alone, [process] moves
    [get_process_step] up by one when it runs to the end and leaves it where
    it was when it stops at a check. *)
Theorem process_counts_one_step (h : Heap Obj Others) :
  every_method keeps_step ->
  get_process_step (self (heap_of (process h)))
  = get_process_step (self h) + (if runs_to_end h then 1 else 0).
Proof.
  intros Hkeep. assert (Hall := Hkeep).
  destruct Hall as (Hfive & Hparse & _ & _ & _ & _ & Hstatus).
  unfold get_process_step.
  destruct (process_outcome h)
    as [(_ & Hend & Hrun) | [(_ & _ & Hend & Hrun) | (_ & _ & Hend & Hrun)]];
    rewrite Hrun, Hend; unfold heap_of; simpl.
  - rewrite (after_get_response_keeps_step h Hfive). lia.
  - unfold after_parse_response. rewrite Hparse.
    rewrite (after_get_response_keeps_step h Hfive). lia.
  - rewrite Hstatus. unfold increment_step. simpl.
    rewrite (after_agent_creation_keeps_step h Hkeep). reflexivity.
Qed.

(** X10: [create_app_agent] is called exactly when [process] passes both
    checks and [should_create_appagent] answers yes. *)
Theorem create_app_agent_called_iff (h : Heap Obj Others) :
  create_app_agent_ ∈ calls_of (process h)
  <-> runs_to_end h = true /\ wants_app_agent h = true.
Proof.
  destruct (process_outcome h)
    as [(_ & Hend & Hrun) | [(_ & _ & Hend & Hrun) | (_ & _ & Hend & Hrun)]];
    rewrite Hrun, Hend; unfold calls_of; simpl snd.
  - split.
    + intros Hin. simpl in Hin. AppAgentStateFacts.split_membership Hin; discriminate.
    + intros [Hno _]. discriminate Hno.
  - split.
    + intros Hin. simpl in Hin. AppAgentStateFacts.split_membership Hin; discriminate.
    + intros [Hno _]. discriminate Hno.
  - destruct (wants_app_agent h); simpl; split.
    + intros _. split; reflexivity.
    + intros _. unfold calls_until_get_response. simpl. AppAgentStateFacts.listed.
    + intros Hin. AppAgentStateFacts.split_membership Hin; discriminate.
    + intros [_ Hno]. discriminate Hno.
Qed.

(** X11: with the [should_create_appagent] of [BaseProcessor] itself, which
    returns [False], [process] never calls [create_app_agent] and the
    conditional stage leaves the heap as [update_memory] left it. *)
Theorem base_policy_creates_no_agent (h : Heap Obj Others) :
  (forall h', should_create_appagent h' = default_should_create_appagent h') ->
  (create_app_agent_ ∉ calls_of (process h))
  /\ after_agent_creation h = update_memory (execute_action (after_parse_response h)).
Proof.
  intros Hdefault.
  assert (Hwants : wants_app_agent h = false).
  { unfold wants_app_agent. rewrite Hdefault. reflexivity. }
  split.
  - destruct (process_outcome h)
      as [(_ & _ & Hrun) | [(_ & _ & _ & Hrun) | (_ & _ & _ & Hrun)]];
      rewrite Hrun; unfold calls_of; simpl snd; try rewrite Hwants; simpl;
      intros Hin; AppAgentStateFacts.split_membership Hin; discriminate.
  - unfold after_agent_creation. rewrite Hdefault. reflexivity.
Qed.

(** X13: a status other than "ERROR" after [process] means the whole pipeline
    ran: both checks passed, [update_status] was the last call and the status
    is the one it left. *)
Theorem status_not_error_means_complete (h : Heap Obj Others) :
  get_process_status (self (heap_of (process h))) <> "ERROR" ->
  runs_to_end h = true
  /\ last (calls_of (process h)) = Some update_status_
  /\ heap_of (process h) = update_status (increment_step (after_agent_creation h)).
Proof.
  unfold get_process_status.
  destruct (process_outcome h)
    as [(H1 & _ & Hrun) | [(_ & H2 & _ & Hrun) | (_ & _ & Hend & Hrun)]];
    rewrite Hrun; unfold heap_of, calls_of; simpl fst; simpl snd; intros Hok.
  - contradiction.
  - contradiction.
  - split; [exact Hend | ]. split; [ | reflexivity].
    destruct (wants_app_agent h); reflexivity.
Qed.

(** While the status is "ERROR" and the methods up to [get_response] keep
    it, one more [process] stops at the first check and the status is still
    "ERROR". *)
Lemma process_in_error (h : Heap Obj Others) :
  until_get_response keeps_status ->
  _status (self h) = "ERROR" ->
  process h = (tt, after_get_response h, calls_until_get_response ++ [is_error_])
  /\ _status (self (after_get_response h)) = "ERROR".
Proof.
  intros Hkeep Herr.
  assert (H5 : _status (self (after_get_response h)) = "ERROR").
  { rewrite (after_get_response_keeps_status h Hkeep). exact Herr. }
  split; [apply process_stops_at_first_check; exact H5 | exact H5].
Qed.

(** X12: an "ERROR" status is never cleared by [process]: if the methods up
    to [get_response] keep the status, then however often [process] is called
    on a processor in "ERROR", each call stops at the first check (six calls),
    the status stays "ERROR", the heap is the one the five methods make of it
    and no method behind the check is ever called. *)
Theorem error_status_is_sticky (n : nat) (h : Heap Obj Others) :
  until_get_response keeps_status ->
  _status (self h) = "ERROR" ->
  _status (self (fst (process_times n h))) = "ERROR"
  /\ fst (process_times n h) = Nat.iter n after_get_response h
  /\ List.length (snd (process_times n h)) = (6 * n)%nat
  /\ (forall c, c ∈ calls_after_get_response -> c ∉ snd (process_times n h)).
Proof.
  intros Hkeep. revert h.
  induction n as [ | n IH]; intros h Herr.
  - simpl. split; [exact Herr | ]. split; [reflexivity | ]. split; [reflexivity | ].
    intros c _ Hin. apply elem_of_nil in Hin. exact Hin.
  - destruct (process_in_error h Hkeep Herr) as [Hrun H5].
    simpl process_times. rewrite Hrun. unfold heap_of, calls_of. simpl fst. simpl snd.
    destruct (IH (after_get_response h) H5) as (Hstatus & Hheap & Hlen & Hnone).
    split; [exact Hstatus | ]. split; [rewrite Hheap; symmetry; apply Nat.iter_succ_r | ].
    split.
    + unfold calls_until_get_response. simpl List.length. rewrite Hlen. lia.
    + intros c Hc Hin. simpl in Hin.
      repeat (apply elem_of_cons in Hin; destruct Hin as [Hin | Hin];
              [ subst c; unfold calls_after_get_response in Hc;
                AppAgentStateFacts.split_membership Hc; discriminate | ]).
      exact (Hnone c Hc Hin).
Qed.

(** X18: [process] itself writes nothing but the step counter: a part of the
    heap that [self._step += 1] does not touch and that every supplied method
    keeps is after [process] what it was before, on each of its three ways
    out.  The sinks of the loggers are such a part: [process] logs nothing of
    its own, not even when it stops on "ERROR". *)
Theorem process_writes_only_the_step {A : Type} (part : Heap Obj Others -> A)
    (h : Heap Obj Others) :
  (forall h', part (increment_step h') = part h') ->
  every_method (fun f => forall h', part (f h') = part h') ->
  part (heap_of (process h)) = part h.
Proof.
  intros Hstep (Hfive & Hparse & Hexec & Hmem & Hask & Hcreate & Hstatus).
  assert (H5 : part (after_get_response h) = part h).
  { destruct Hfive as (H1 & H2 & H3 & H4 & H5). unfold after_get_response.
    rewrite H5, H4, H3, H2, H1. reflexivity. }
  assert (H7 : part (after_parse_response h) = part h).
  { unfold after_parse_response. rewrite Hparse. exact H5. }
  destruct (process_outcome h)
    as [(_ & _ & Hrun) | [(_ & _ & _ & Hrun) | (_ & _ & _ & Hrun)]];
    rewrite Hrun; unfold heap_of; simpl.
  - exact H5.
  - exact H7.
  - rewrite Hstatus, Hstep. unfold after_agent_creation.
    destruct (fst (should_create_appagent (update_memory (execute_action
                (after_parse_response h))))).
    + rewrite Hcreate, Hask, Hmem, Hexec. exact H7.
    + rewrite Hask, Hmem, Hexec. exact H7.
Qed.

End PipelineLaws.

(** ** The pipeline laws on concrete processors *)

Lemma process_writes_only_the_step_witness :
  sinks (heap_of (process (methods := failing_model) (fresh_heap "CONTINUE"))) = ∅.
Proof.
  apply (process_writes_only_the_step (methods := failing_model) sinks
           (fresh_heap "CONTINUE")).
  - intros h'. reflexivity.
  - repeat split; intros h'; reflexivity.
Defined.

Lemma process_counts_one_step_witness :
  get_process_step
    (self (heap_of (process (methods := finishing_step) (fresh_heap "CONTINUE")))) = 1
  /\ get_process_step
       (self (heap_of (process (methods := failing_model) (fresh_heap "CONTINUE")))) = 0.
Proof.
  split.
  - apply (process_counts_one_step (methods := finishing_step) (fresh_heap "CONTINUE")).
    repeat split; intros h; reflexivity.
  - apply (process_counts_one_step (methods := failing_model) (fresh_heap "CONTINUE")).
    repeat split; intros h; reflexivity.
Defined.

Lemma base_policy_creates_no_agent_witness :
  create_app_agent_ ∉ calls_of (process (methods := finishing_step) (fresh_heap "CONTINUE")).
Proof.
  apply (base_policy_creates_no_agent (methods := finishing_step) (fresh_heap "CONTINUE")).
  intros h'. reflexivity.
Defined.

Lemma status_not_error_means_complete_witness :
  last (calls_of (process (methods := finishing_step) (fresh_heap "CONTINUE")))
  = Some update_status_.
Proof.
  apply (status_not_error_means_complete (methods := finishing_step) (fresh_heap "CONTINUE")).
  simpl. discriminate.
Defined.

Lemma error_status_is_sticky_witness :
  _status (self (fst (process_times (methods := quiet_step) 3 (fresh_heap "ERROR")))) = "ERROR"
  /\ List.length (snd (process_times (methods := quiet_step) 3 (fresh_heap "ERROR")))
     = 18%nat.
Proof.
  destruct (error_status_is_sticky (methods := quiet_step) 3 (fresh_heap "ERROR"))
    as (Hstatus & _ & Hlen & _).
  - repeat split; intros h; reflexivity.
  - reflexivity.
  - split; [exact Hstatus | exact Hlen].
Defined.

(** A step that passes both checks is counted also when it ends in "ERROR":
    here [update_status] leaves that status behind. *)
Example errored_step_is_counted :
  get_process_step
    (self (heap_of (process (methods := failing_update) (fresh_heap "CONTINUE")))) = 1
  /\ get_process_status
       (self (heap_of (process (methods := failing_update) (fresh_heap "CONTINUE"))))
     = "ERROR".
Proof. split; reflexivity. Qed.

(** ** The text of the log *)

Lemma every_char_weaken (test1 test2 : ascii -> bool) (s : string) :
  (forall c, test1 c = true -> test2 c = true) ->
  every_char test1 s = true -> every_char test2 s = true.
Proof.
  intros Hle. induction s as [ | x s IH]; simpl; [reflexivity | ].
  intros [Hx Hs]%andb_true_iff. rewrite (Hle x Hx), (IH Hs). reflexivity.
Qed.

Lemma number_char_printable (c : ascii) : number_char c = true -> printable c = true.
Proof.
  destruct c as [[] [] [] [] [] [] [] []]; vm_compute; intros H;
    first [reflexivity | discriminate H].
Qed.

Lemma pretty_N_char_is_digit (d : N) : number_char (pretty_N_char d) = true.
Proof.
  unfold pretty_N_char.
  repeat (match goal with |- context [match ?x with _ => _ end] => destruct x end;
          try reflexivity).
Qed.

Lemma pretty_N_number (x : N) : every_char number_char (pretty x) = true.
Proof.
  unfold pretty, pretty_N. case_decide; [reflexivity | ].
  apply pretty_N_go_chars; [apply pretty_N_char_is_digit | reflexivity].
Qed.

(** A decimal numeral has digits and at most a minus sign. *)
Lemma pretty_Z_number (z : Z) : every_char number_char (pretty z) = true.
Proof.
  destruct z as [ | q | q]; unfold pretty, pretty_Z.
  - reflexivity.
  - apply (pretty_N_number (N.pos q)).
  - simpl. apply (pretty_N_number (N.pos q)).
Qed.

Lemma pretty_Z_printable (z : Z) : every_char printable (pretty z) = true.
Proof.
  apply (every_char_weaken number_char); [apply number_char_printable | ].
  apply pretty_Z_number.
Qed.

Lemma hex_digit_printable (d : N) : printable (hex_digit d) = true.
Proof.
  unfold hex_digit.
  repeat (match goal with |- context [match ?x with _ => _ end] => destruct x end;
          try reflexivity).
Qed.

Lemma u_escape_printable (n : N) : every_char printable (u_escape n) = true.
Proof.
  unfold u_escape, hex4. cbn [every_char].
  rewrite !hex_digit_printable. reflexivity.
Qed.

(** Whatever the code point, its escape is printable ASCII. *)
Lemma escape_char_printable (n : N) : every_char printable (escape_char n) = true.
Proof.
  unfold escape_char. cbv zeta.
  repeat (match goal with
          | |- context [N.eqb n ?k] => destruct (N.eqb n k); [reflexivity | ]
          end).
  destruct ((32 <=? n)%N && (n <=? 126)%N) eqn:Hprint.
  - apply andb_true_iff in Hprint. destruct Hprint as [Hlo Hhi].
    cbn [every_char]. unfold printable.
    apply N.leb_le in Hhi. rewrite N_ascii_embedding by lia.
    apply N.leb_le in Hhi. rewrite Hlo, Hhi. reflexivity.
  - destruct (n <? 0x10000)%N.
    + apply u_escape_printable.
    + rewrite every_char_append, !u_escape_printable. reflexivity.
Qed.

Lemma escape_printable (s : pystr) : every_char printable (escape s) = true.
Proof.
  induction s as [ | c s IH]; simpl; [reflexivity | ].
  rewrite every_char_append, escape_char_printable, IH. reflexivity.
Qed.

Lemma dumps_str_printable (s : pystr) : every_char printable (dumps_str s) = true.
Proof.
  unfold dumps_str. rewrite append_cons. cbn [every_char].
  rewrite every_char_append, escape_printable. reflexivity.
Qed.

Lemma concat_printable (sep : string) (parts : list string) :
  every_char printable sep = true ->
  Forall (fun part => every_char printable part = true) parts ->
  every_char printable (String.concat sep parts) = true.
Proof.
  intros Hsep Hparts. induction Hparts as [ | x rest Hx Hrest IH]; [reflexivity | ].
  destruct rest as [ | y rest]; [exact Hx | ].
  change (String.concat sep (x :: y :: rest))
    with (x +:+ sep +:+ String.concat sep (y :: rest)).
  rewrite !every_char_append, Hx, Hsep, IH. reflexivity.
Qed.

(** [json.dumps] writes printable ASCII only, whatever the value, as long as
    [float.__repr__] does. *)
Lemma dumps_printable {floats : FloatText} :
  (forall x : Float, every_char printable (float_repr x) = true) ->
  forall j : json, every_char printable (dumps j) = true.
Proof.
  intros Hfloat. fix IH 1.
  intros j. destruct j as [ | [] | n | f | s | items | items]; cbn [dumps].
  - reflexivity.
  - reflexivity.
  - reflexivity.
  - apply pretty_Z_printable.
  - destruct f as [ | | | x]; [reflexivity | reflexivity | reflexivity | apply Hfloat].
  - apply dumps_str_printable.
  - rewrite !every_char_append. rewrite concat_printable; [reflexivity | reflexivity | ].
    induction items as [ | x items IHitems]; constructor; [apply IH | exact IHitems].
  - rewrite !every_char_append. rewrite concat_printable; [reflexivity | reflexivity | ].
    induction items as [ | [k v] items IHitems]; constructor; [ | exact IHitems].
    cbv beta. cbn [fst snd].
    rewrite !every_char_append, dumps_str_printable, IH. reflexivity.
Qed.

(** The text of an error record is printable ASCII: it holds no float. *)
Lemma error_record_printable {floats : FloatText} {Obj : Type} (p : BaseProcessor Obj)
    (response_str error : pystr) :
  every_char printable (dumps (JDict (error_record p response_str error))) = true.
Proof.
  unfold error_record. cbn [dumps List.map String.concat fst snd key_text].
  rewrite !every_char_append, !dumps_str_printable, pretty_Z_printable. reflexivity.
Qed.

(** Strings that are read back alike are written alike. *)
Lemma dumps_str_normal (s1 s2 : pystr) : normal s1 = normal s2 -> dumps_str s1 = dumps_str s2.
Proof.
  intros Heq. unfold dumps_str.
  rewrite <- (escape_normal s1), Heq, escape_normal. reflexivity.
Qed.

Section LoggingLaws.

Context {floats : FloatText} {Obj Others : Type}.

(** X14: calling [error_log] for a list of errors appends their records to
    the sink of [self.logger] in the order of the calls, all under the one
    step counter the processor has, and touches neither the processor nor any
    other logger. *)
Theorem error_logs_append (entries : list (pystr * pystr)) (h : Heap Obj Others) :
  written (logger (self h)) (sinks (error_logs entries h))
    = written (logger (self h)) (sinks h)
      ++ List.map (fun entry => dumps (JDict (error_record (self h) (fst entry) (snd entry))))
           entries
  /\ self (error_logs entries h) = self h
  /\ (forall l, l <> logger (self h) ->
        written l (sinks (error_logs entries h)) = written l (sinks h)).
Proof.
  revert h. induction entries as [ | [r e] entries IH]; intros h.
  - simpl. rewrite app_nil_r. repeat split; reflexivity.
  - unfold error_logs. simpl foldl. fold (error_logs entries (error_log r e h)).
    destruct (IH (error_log r e h)) as (Hsink & Hself & Hothers).
    change (self (error_log r e h)) with (self h) in Hsink, Hself, Hothers.
    split; [ | split].
    + rewrite Hsink. unfold error_log at 1. simpl sinks.
      rewrite written_info_same. simpl List.map. rewrite <- app_assoc. reflexivity.
    + exact Hself.
    + intros l Hl. rewrite (Hothers l Hl). unfold error_log. simpl sinks.
      apply written_info_other. exact Hl.
Qed.

(** X15: the request logger sees what [error_log] and [log] write exactly
    when it is the very logger object the processor holds as [self.logger]. *)
Theorem request_logger_shares_the_sink
    (response_str error : pystr) (response_json : list (key * json))
    (h : Heap Obj Others) :
  written (request_logger (self h)) (sinks (error_log response_str error h))
    = written (request_logger (self h)) (sinks h)
      ++ (if decide (request_logger (self h) = logger (self h))
          then [dumps (JDict (error_record (self h) response_str error))]
          else [])
  /\ written (request_logger (self h)) (sinks (log response_json h))
     = written (request_logger (self h)) (sinks h)
       ++ (if decide (request_logger (self h) = logger (self h))
           then [dumps (JDict response_json)]
           else []).
Proof.
  unfold error_log, log. simpl sinks.
  destruct (decide (request_logger (self h) = logger (self h))) as [Heq | Hne].
  - rewrite Heq. split; apply written_info_same.
  - rewrite app_nil_r. split; apply written_info_other; exact Hne.
Qed.

(** X16: what [error_log] hands the logger is one line of printable ASCII,
    whatever code points the response and the error hold; so is what [log]
    hands it, whatever the dictionary holds (strings of any code points,
    integers, floats, lists, dictionaries, keys of every kind), given that
    [float.__repr__] writes printable ASCII.  A newline and a code point
    beyond ASCII are written as escapes. *)
Theorem log_lines_are_printable
    (response_str error : pystr) (response_json : list (key * json))
    (h : Heap Obj Others) :
  (exists line,
     written (logger (self h)) (sinks (error_log response_str error h))
       = written (logger (self h)) (sinks h) ++ [line]
     /\ every_char printable line = true)
  /\ ((forall x : Float, every_char printable (float_repr x) = true) ->
      exists line,
        written (logger (self h)) (sinks (log response_json h))
          = written (logger (self h)) (sinks h) ++ [line]
        /\ every_char printable line = true).
Proof.
  split.
  - eexists. split; [apply written_info_same | apply error_record_printable].
  - intros Hfloat. eexists. split; [apply written_info_same | ].
    apply (dumps_printable Hfloat).
Qed.

End LoggingLaws.

(** X17: the text of an error record tells the step counter, and the response
    and the error up to surrogate pairs: two records are one text exactly when
    the steps are equal and the responses, and the errors, are read back
    alike. *)
Theorem error_records_same_text {floats : FloatText} {Obj : Type}
    (p1 p2 : BaseProcessor Obj) (r1 e1 r2 e2 : pystr) :
  valid_str r1 -> valid_str e1 -> valid_str r2 -> valid_str e2 ->
  (dumps (JDict (error_record p1 r1 e1)) = dumps (JDict (error_record p2 r2 e2))
   <-> _step p1 = _step p2 /\ normal r1 = normal r2 /\ normal e1 = normal e2).
Proof.
  intros Hr1 He1 Hr2 He2. split.
  - intros Heq. apply (f_equal loads) in Heq.
    rewrite !loads_error_record in Heq by assumption.
    injection Heq as Hstep Hr He. repeat split; assumption.
  - intros (Hstep & Hr & He). unfold error_record.
    cbn [dumps List.map String.concat fst snd key_text].
    rewrite Hstep, (dumps_str_normal r1 r2 Hr), (dumps_str_normal e1 e2 He).
    reflexivity.
Qed.

#[local] Existing Instance text_floats.

(** The code point U+10000 and the two lone surrogates U+D800, U+DC00 give
    one and the same record; a different error gives another. *)
Lemma error_records_same_text_witness :
  dumps (JDict (error_record (floats := text_floats) (fresh "CONTINUE")
                  [0x10000%N] (str_of "timeout")))
  = dumps (JDict (error_record (floats := text_floats) (fresh "CONTINUE")
                    [0xd800%N; 0xdc00%N] (str_of "timeout")))
  /\ dumps (JDict (error_record (floats := text_floats) (fresh "CONTINUE")
                     (str_of "no reply") (str_of "timeout")))
     <> dumps (JDict (error_record (floats := text_floats) (fresh "CONTINUE")
                        (str_of "no reply") (str_of "time out"))).
Proof.
  split.
  - apply (error_records_same_text (floats := text_floats) (fresh "CONTINUE")
             (fresh "CONTINUE") [0x10000%N] (str_of "timeout") [0xd800%N; 0xdc00%N]
             (str_of "timeout")).
    + repeat constructor.
    + apply valid_str_of.
    + repeat constructor.
    + apply valid_str_of.
    + repeat split.
  - intros Heq.
    apply (error_records_same_text (floats := text_floats) (fresh "CONTINUE")
             (fresh "CONTINUE") (str_of "no reply") (str_of "timeout")
             (str_of "no reply") (str_of "time out")) in Heq;
      try apply valid_str_of.
    destruct Heq as (_ & _ & Heq). discriminate Heq.
Defined.

Lemma log_lines_are_printable_witness :
  exists line,
    written 2%nat
      (sinks (log (floats := text_floats)
                [ (KStr (str_of "answer"), JStr forged_response);
                  (KInt 7, JFloat NaN);
                  (KNone, JList [JInt (-3); JBool true; JNull]) ]
                (fresh_heap "CONTINUE")))
    = [line]
    /\ every_char printable line = true.
Proof.
  destruct (log_lines_are_printable (floats := text_floats) [] []
              [ (KStr (str_of "answer"), JStr forged_response);
                (KInt 7, JFloat NaN);
                (KNone, JList [JInt (-3); JBool true; JNull]) ]
              (fresh_heap "CONTINUE")) as [_ Hlog].
  destruct Hlog as (line & Hline & Hprintable).
  - intros x. exact (proj2_sig x).
  - exists line. split; [exact Hline | exact Hprintable].
Defined.

End ProcessorLaws.
